(** * A shallow embedding of the Audio mixing engine

    The repository holds three generations of one design: [AudioSystem]
    (oldest), [Juke], and [Audio] (the pooled engine with [CreateSample],
    [CreateClip], [Play], [Pause], [Flush], ...).  This development embeds
    the control operations and the render callback of [Audio], and the
    parts of [Juke] ([Load], [Clip], [Play], [IsPlaying], [Stop], [Flush]
    and the per-frame pan and clamp of its callback) that the properties
    below compare it with.  Opening, starting and closing the PortAudio
    stream, [Terminate] and logging are outside the embedding.

    Conventions of the embedding.
    - [float] is IEEE-754 binary32 with round-to-nearest-even, taken from
      the standard library's [SpecFloat] at precision 24 and [emax] 128;
      every C++ [float] operation is one rounded operation.
    - [unsigned int] / [uint32_t] fields on which the code does arithmetic
      ([sampleIndex], [length], [loopCount]) are [Z] with the wrap-around
      modulo 2^32 written out.  Handles ([Sample], [Clip]) are only ever
      compared with zero and used as indices, and are [nat].
    - [std::vector] pools are lists, [std::queue] free lists are lists with
      the front at the head.  The pointer [ClipData::sample] always points
      into the sample pool and is the index of the slot it points to;
      [nullptr] is [None].  A heap buffer [float*] is [option (list float)].
    - Every operation is a function of the engine state returning [option]:
      [None] stands for undefined behaviour of the C++ code (an index
      outside a vector or buffer, a null buffer dereference). *)

From Stdlib Require Import ZArith Lia Bool List.
From Stdlib Require Import Floats.SpecFloat.
From stdpp Require Import base option list strings.

Local Open Scope Z_scope.

(** ** binary32 arithmetic *)

Module F32.
Definition prec : Z := 24.
Definition emax : Z := 128.

Definition t : Type := spec_float.

Definition add : t → t → t := SFadd prec emax.
Definition sub : t → t → t := SFsub prec emax.
Definition mul : t → t → t := SFmul prec emax.
Definition div : t → t → t := SFdiv prec emax.
Definition neg : t → t := SFopp.
Definition ltb : t → t → bool := SFltb.
Definition leb : t → t → bool := SFleb.

(** Conversion of an integer to [float] (round to nearest even). *)
Definition of_Z (n : Z) : t := binary_normalize prec emax n 0 false.

(** The literals of the source. *)
Definition zero : t := S754_zero false.          (* 0.0f *)
Definition one : t := of_Z 1.                    (* 1.0f *)
Definition c0_707 : t := div (of_Z 707) (of_Z 1000).  (* 0.707f *)

(** [static_cast<int>(x)]: truncation toward zero; undefined for NaN,
    infinities and values outside the range of [int]. *)
Definition trunc (x : t) : option Z :=
  match x with
  | S754_zero _ => Some 0
  | S754_finite s m e =>
      let v := if 0 <=? e then Z.pos m * 2 ^ e else Z.pos m / 2 ^ (- e) in
      Some (if s then - v else v)
  | _ => None
  end.

Definition to_int (x : t) : option Z :=
  v ← trunc x;
  if (- 2 ^ 31 <=? v) && (v <? 2 ^ 31) then Some v else None.

(** [x] lies in the closed interval [-1.0, 1.0] (false for NaN). *)
Definition in_unit_range (x : t) : bool := leb (neg one) x && leb x one.

Definition is_finite (x : t) : bool :=
  match x with
  | S754_zero _ | S754_finite _ _ _ => true
  | _ => false
  end.

Definition is_zero (x : t) : bool :=
  match x with
  | S754_zero _ => true
  | _ => false
  end.
End F32.

Abbreviation float := F32.t.

(** ** Machine integers *)

Definition UINT_MAX : Z := 2 ^ 32 - 1.
Definition wrap32 (x : Z) : Z := x mod 2 ^ 32.

(** Conversion of an [unsigned int] to [int]. *)
Definition to_int32 (x : Z) : Z := if x <? 2 ^ 31 then x else x - 2 ^ 32.

(** ** Operations on a global state

    A C++ function that works on the engine's globals is a function from
    the state to a result and a new state; [None] is undefined behaviour. *)

Definition StateOp (S A : Type) : Type := S → option (A * S).

Section StateOp.
Context {S : Type}.

Definition ret {A} (a : A) : StateOp S A := λ g, Some (a, g).
Definition bind {A B} (m : StateOp S A) (k : A → StateOp S B) : StateOp S B :=
  λ g, match m g with
       | Some (a, g') => k a g'
       | None => None
       end.
Definition gets {A} (f : S → A) : StateOp S A := λ g, Some (f g, g).
Definition modify (f : S → S) : StateOp S unit := λ g, Some (tt, f g).
Definition undefined {A} : StateOp S A := λ _, None.
Definition lift {A} (o : option A) : StateOp S A :=
  λ g, match o with
       | Some a => Some (a, g)
       | None => None
       end.

(** The state and the result of a call. *)
Definition run {A} (m : StateOp S A) (g : S) : option S := snd <$> m g.
Definition result {A} (m : StateOp S A) (g : S) : option A := fst <$> m g.
End StateOp.

Notation "x <- m ;; k" := (bind m (λ x, k))
  (at level 20, m at level 99, k at level 200, only parsing).
Notation "m ;; k" := (bind m (λ _, k))
  (at level 100, k at level 200, right associativity, only parsing).

(** ** The decoder's view of a file ([std::filesystem] and [SndfileHandle]) *)
Record SndFile := {
  file_exists : bool;
  is_regular_file : bool;
  file_error : bool;
  strError : string;
  channels : Z;
  samplerate : Z;
  frames : Z;
  pcm : list float   (* what [file.read] stores into the new buffer *)
}.

(** * The [Audio] engine *)

Module Audio.

(** Handles. *)
Definition Sample : Type := nat.
Definition Clip : Type := nat.
Bind Scope nat_scope with Sample Clip.

Record Properties := {
  bufferSize : Z;
  sampleRate : Z;
  maxSampleCount : nat;
  maxClipCount : nat
}.

(** *** [struct SampleData] *)
Module SampleData.
Record t := Build {
  data : option (list float);
  length : Z;
  mono : bool
  }.

(** The default member initialisers. *)
Definition init : t := {| data := None; length := 0; mono := false |}.

(** [SampleData::Reset]: the buffer is released with [delete[]] and the
    fields return to their defaults. *)
Definition Reset (s : t) : t :=
  {| data := None; length := 0; mono := false |}.
End SampleData.

Inductive ClipState := Playing | Paused | Complete.

Global Instance ClipState_eq_dec : EqDecision ClipState.
Proof. solve_decision. Defined.

(** *** [struct ClipData] *)
Module ClipData.
Record t := Build {
  sample : option nat;
  state : ClipState;
  sampleIndex : Z;
  volume : float;
  pan : float;
  loopCount : Z
  }.

Definition init : t :=
  {| sample := None; state := Paused; sampleIndex := 0;
     volume := F32.one; pan := F32.zero; loopCount := 0 |}.

Definition set_sample (p : option nat) (c : t) : t :=
  Build p (state c) (sampleIndex c) (volume c) (pan c) (loopCount c).
Definition set_state (s : ClipState) (c : t) : t :=
  Build (sample c) s (sampleIndex c) (volume c) (pan c) (loopCount c).
Definition set_sampleIndex (i : Z) (c : t) : t :=
  Build (sample c) (state c) i (volume c) (pan c) (loopCount c).
Definition set_volume (v : float) (c : t) : t :=
  Build (sample c) (state c) (sampleIndex c) v (pan c) (loopCount c).
Definition set_pan (p : float) (c : t) : t :=
  Build (sample c) (state c) (sampleIndex c) (volume c) p (loopCount c).
Definition set_loopCount (n : Z) (c : t) : t :=
  Build (sample c) (state c) (sampleIndex c) (volume c) (pan c) n.

Section Methods.
  (** The sample pool the [sample] pointer points into. *)
Variable pool : list SampleData.t.

  (** [ClipData::IncrementSampleIndex]. *)
Definition IncrementSampleIndex (c : t) : option t :=
    match sample c with
    | None => Some c
    | Some p =>
        sd ← pool !! p;
        let c1 := set_sampleIndex (wrap32 (sampleIndex c + 1)) c in
        if SampleData.length sd <=? sampleIndex c1 then
          if loopCount c1 =? 0 then Some (set_state Complete c1)
          else
            let c2 := set_sampleIndex 0 c1 in
            if loopCount c2 =? UINT_MAX then Some c2
            else Some (set_loopCount (wrap32 (loopCount c2 - 1)) c2)
        else Some c1
    end.

  (** [ClipData::Next]. *)
Definition Next (c : t) : option (float * t) :=
    match sample c, state c with
    | None, _ | _, Paused | _, Complete => Some (F32.zero, c)
    | Some p, Playing =>
        sd ← pool !! p;
        buf ← SampleData.data sd;
        sampleValue ← buf !! Z.to_nat (sampleIndex c);
        c' ← IncrementSampleIndex c;
        Some (F32.mul sampleValue (volume c), c')
    end.

  (** [ClipData::NextStereo]. *)
Definition NextStereo (c : t) : option ((float * float) * t) :=
    match sample c with
    | None => Some ((F32.zero, F32.zero), c)
    | Some p =>
        sd ← pool !! p;
        if SampleData.mono sd then
          '(value, c') ← Next c;
          Some ((value, value), c')
        else
          '(l, c1) ← Next c;
          let left := F32.mul l (F32.sub F32.one (pan c)) in
          '(r, c2) ← Next c1;
          let right := F32.mul r (F32.add F32.one (pan c)) in
          Some ((left, right), c2)
    end.
End Methods.

(** [ClipData::Reset]. *)
Definition Reset (c : t) : t := init.
End ClipData.

(** *** [struct GlobalData] (the PortAudio stream handle is left out) *)
Record GlobalData := {
  properties : Properties;
  availableSampleIds : list Sample;
  availableClipIds : list Clip;
  sampleData : list SampleData.t;
  clipData : list ClipData.t;
  errorString : string
}.

Definition set_availableSampleIds (f : list Sample → list Sample) (g : GlobalData) :=
  {| properties := properties g; availableSampleIds := f (availableSampleIds g);
     availableClipIds := availableClipIds g; sampleData := sampleData g;
     clipData := clipData g; errorString := errorString g |}.
Definition set_availableClipIds (f : list Clip → list Clip) (g : GlobalData) :=
  {| properties := properties g; availableSampleIds := availableSampleIds g;
     availableClipIds := f (availableClipIds g); sampleData := sampleData g;
     clipData := clipData g; errorString := errorString g |}.
Definition set_sampleData (f : list SampleData.t → list SampleData.t) (g : GlobalData) :=
  {| properties := properties g; availableSampleIds := availableSampleIds g;
     availableClipIds := availableClipIds g; sampleData := f (sampleData g);
     clipData := clipData g; errorString := errorString g |}.
Definition set_clipData (f : list ClipData.t → list ClipData.t) (g : GlobalData) :=
  {| properties := properties g; availableSampleIds := availableSampleIds g;
     availableClipIds := availableClipIds g; sampleData := sampleData g;
     clipData := f (clipData g); errorString := errorString g |}.
Definition set_errorString (s : string) (g : GlobalData) :=
  {| properties := properties g; availableSampleIds := availableSampleIds g;
     availableClipIds := availableClipIds g; sampleData := sampleData g;
     clipData := clipData g; errorString := s |}.

(** *** Operations on the engine state *)

Definition Op (A : Type) : Type := StateOp GlobalData A.

(** [gData->sampleData[i]] and [gData->clipData[i]]: [operator[]] of a
    vector, undefined outside its bounds. *)
Definition sample_at (i : Sample) : Op SampleData.t :=
  pool <- gets sampleData ;; lift (pool !! i).
Definition clip_at (i : Clip) : Op ClipData.t :=
  pool <- gets clipData ;; lift (pool !! i).
Definition sample_update (i : Sample) (f : SampleData.t → SampleData.t) : Op unit :=
  sd <- sample_at i ;; modify (set_sampleData (λ pool, <[i := f sd]> pool)).
Definition clip_update (i : Clip) (f : ClipData.t → ClipData.t) : Op unit :=
  cd <- clip_at i ;; modify (set_clipData (λ pool, <[i := f cd]> pool)).

(** [queue.front()] followed by [queue.pop()]; undefined on an empty queue. *)
Definition pop_sample_id : Op Sample :=
  q <- gets availableSampleIds ;;
  match q with
  | [] => undefined
  | i :: _ => modify (set_availableSampleIds (drop 1)) ;; ret i
  end.
Definition pop_clip_id : Op Clip :=
  q <- gets availableClipIds ;;
  match q with
  | [] => undefined
  | i :: _ => modify (set_availableClipIds (drop 1)) ;; ret i
  end.

Definition set_error (s : string) : Op unit := modify (set_errorString s).

(** [Initialize]: the id pools hold 1 .. max, the object pools hold
    max + 1 default slots (slot 0 is never handed out).  [pa_error] is the
    error text of the first PortAudio call that fails, if one does; the
    pools are built before those calls. *)
Definition Initialize (props : Properties) (pa_error : option string)
    : bool * GlobalData :=
  (bool_decide (pa_error = None),
   {| properties := props;
      availableSampleIds := seq 1 (maxSampleCount props);
      availableClipIds := seq 1 (maxClipCount props);
      sampleData := replicate (maxSampleCount props + 1) SampleData.init;
      clipData := replicate (maxClipCount props + 1) ClipData.init;
      errorString := default ""%string pa_error |}).

(** [DestroyClip]. *)
Definition DestroyClip (clip : Clip) : Op unit :=
  if Nat.eqb clip 0 then ret tt
  else
    clip_update clip ClipData.Reset ;;
    modify (set_availableClipIds (λ q, q ++ [clip])).

(** [Flush]: the range-for over the clip pool with the running index [i]. *)
Fixpoint Flush_loop (n : nat) (i : nat) : Op unit :=
  match n with
  | O => ret tt
  | S n' =>
      clip <- clip_at i ;;
      (if decide (ClipData.state clip = Complete) then DestroyClip i else ret tt) ;;
      Flush_loop n' (S i)
  end.

Definition Flush : Op unit :=
  pool <- gets clipData ;; Flush_loop (List.length pool) 0.

(** [GetPlayingClipCount]. *)
Definition GetPlayingClipCount : Op Z :=
  pool <- gets clipData ;;
  ret (foldl (λ count clip,
                if decide (ClipData.state clip = Playing) then count + 1 else count)
             0 pool).

Definition GetErrorString : Op string := gets errorString.

(** [CreateSample]. *)
Definition CreateSample (filename : string) (file : SndFile) : Op Sample :=
  q <- gets availableSampleIds ;;
  if decide (q = []) then
    set_error ("Error creating sample '" +:+ filename +:+ "': No available sample IDs.") ;;
    ret 0%nat
  else if negb (file_exists file) then
    set_error ("Error loading sample '" +:+ filename +:+ "': File does not exist.") ;;
    ret 0%nat
  else if negb (is_regular_file file) then
    set_error ("Error loading sample '" +:+ filename +:+ "': Path is not a file.") ;;
    ret 0%nat
  else if file_error file then
    set_error ("Error loading sample '" +:+ filename +:+ "': " +:+ strError file) ;;
    ret 0%nat
  else if negb (channels file =? 1) && negb (channels file =? 2) then
    set_error ("Error loading sample '" +:+ filename +:+ "': Sample must be mono or stereo.") ;;
    ret 0%nat
  else if negb (samplerate file =? 44100) then
    set_error ("Error loading sample '" +:+ filename +:+ "': Sample must be 44100 Hz.") ;;
    ret 0%nat
  else
    sampleId <- pop_sample_id ;;
    sample_update sampleId SampleData.Reset ;;
    sample_update sampleId (λ _,
      {| SampleData.data := Some (pcm file);
         SampleData.length := wrap32 (frames file * channels file);
         SampleData.mono := channels file =? 1 |}) ;;
    ret sampleId.

(** [DestroySample]. *)
Definition DestroySample (sample : Sample) : Op unit :=
  if Nat.eqb sample 0 then
    set_error "Error destroying sample: Invalid sample."
  else
    sample_update sample SampleData.Reset ;;
    modify (set_availableSampleIds (λ q, q ++ [sample])).

(** [CreateClip]. *)
Definition CreateClip (sample : Sample) : Op Clip :=
  if Nat.eqb sample 0 then
    set_error "Error creating clip: Invalid sample." ;; ret 0%nat
  else
    q <- gets availableClipIds ;;
    if decide (q = []) then
      set_error "Error creating clip: No available clip IDs." ;; ret 0%nat
    else
      clipId <- pop_clip_id ;;
      clip_update clipId ClipData.Reset ;;
      sample_at sample ;;
      clip_update clipId (ClipData.set_sample (Some sample)) ;;
      ret clipId.

(** [Play] and [Pause]. *)
Definition Play (clip : Clip) : Op unit :=
  if Nat.eqb clip 0 then ret tt
  else clip_update clip (ClipData.set_state Playing).

Definition Pause (clip : Clip) : Op unit :=
  if Nat.eqb clip 0 then ret tt
  else clip_update clip (ClipData.set_state Paused).

(** [PlaySample]. *)
Definition PlaySample (sample : Sample) : Op Clip :=
  if Nat.eqb sample 0 then
    set_error "Error playing sample: Invalid sample." ;; ret 0%nat
  else
    clip <- CreateClip sample ;;
    if Nat.eqb clip 0 then
      e <- gets errorString ;;
      set_error ("Error playing sample: " +:+ e) ;; ret 0%nat
    else
      Play clip ;; ret clip.

(** The getters. *)
Definition GetClipVolume (clip : Clip) : Op float :=
  if Nat.eqb clip 0 then ret F32.zero
  else clipData <- clip_at clip ;; ret (ClipData.volume clipData).

Definition GetClipPan (clip : Clip) : Op float :=
  if Nat.eqb clip 0 then ret F32.zero
  else clipData <- clip_at clip ;; ret (ClipData.pan clipData).

Definition GetClipLoop (clip : Clip) : Op Z :=
  if Nat.eqb clip 0 then ret 0
  else clipData <- clip_at clip ;; ret (to_int32 (ClipData.loopCount clipData)).

Definition GetClipPosition (clip : Clip) : Op float :=
  if Nat.eqb clip 0 then ret F32.zero
  else
    clipData <- clip_at clip ;;
    match ClipData.sample clipData with
    | None => ret F32.zero
    | Some p =>
        sd <- sample_at p ;;
        ret (F32.div (F32.of_Z (ClipData.sampleIndex clipData))
                     (F32.of_Z (SampleData.length sd)))
    end.

(** The setters. *)
Definition SetClipVolume (clip : Clip) (volume : float) : Op unit :=
  if Nat.eqb clip 0 then ret tt
  else clip_update clip (ClipData.set_volume volume).

Definition SetClipPan (clip : Clip) (pan : float) : Op unit :=
  if Nat.eqb clip 0 then ret tt
  else clip_update clip (ClipData.set_pan pan).

Definition SetClipLoop (clip : Clip) (count : Z) : Op unit :=
  if Nat.eqb clip 0 then ret tt
  else clip_update clip (ClipData.set_loopCount (wrap32 count)).

Definition SetClipPosition (clip : Clip) (position : float) : Op unit :=
  if Nat.eqb clip 0 then ret tt
  else
    clipData <- clip_at clip ;;
    match ClipData.sample clipData with
    | None => ret tt
    | Some p =>
        sd <- sample_at p ;;
        index <- lift (F32.to_int (F32.mul position (F32.of_Z (SampleData.length sd)))) ;;
        clip_update clip (ClipData.set_sampleIndex (wrap32 index))
    end.

Definition IsClipPlaying (clip : Clip) : Op bool :=
  if Nat.eqb clip 0 then ret false
  else
    clipData <- clip_at clip ;;
    ret (bool_decide (ClipData.state clipData = Playing)).

(** *** The render callback *)

(** The inner loop of [PortAudioCallback] for one clip: [out] walks the
    interleaved buffer two floats at a time, once per frame. *)
Fixpoint mix_frames (pool : list SampleData.t) (framesPerBuffer : nat)
    (out : list float) (clip : ClipData.t) : option (list float * ClipData.t) :=
  match framesPerBuffer with
  | O => Some (out, clip)
  | S n =>
      match out with
      | l :: r :: out' =>
          '(value, clip1) ← ClipData.NextStereo pool clip;
          '(rest, clip2) ← mix_frames pool n out' clip1;
          Some (F32.add l (fst value) :: F32.add r (snd value) :: rest, clip2)
      | _ => None
      end
  end.

(** The outer loop over the clip pool. *)
Fixpoint mix_clips (pool : list SampleData.t) (framesPerBuffer : nat)
    (clips : list ClipData.t) (out : list float)
    : option (list float * list ClipData.t) :=
  match clips with
  | [] => Some (out, [])
  | clip :: clips' =>
      if decide (ClipData.state clip ≠ Playing) then
        '(out', rest) ← mix_clips pool framesPerBuffer clips' out;
        Some (out', clip :: rest)
      else
        '(out1, clip') ← mix_frames pool framesPerBuffer out clip;
        '(out2, rest) ← mix_clips pool framesPerBuffer clips' out1;
        Some (out2, clip' :: rest)
  end.

(** [PortAudioCallback]: the result is the content of [outputBuffer] when
    the callback returns [paContinue]. *)
Definition PortAudioCallback (framesPerBuffer : nat) : Op (list float) :=
  λ g,
    let silence := replicate (framesPerBuffer * 2) F32.zero in
    '(out, clips) ← mix_clips (sampleData g) framesPerBuffer (clipData g) silence;
    Some (out, set_clipData (λ _, clips) g).

(** *** Specification-level views of the render loop *)

(** The stereo values a clip yields over [n] successive frames. *)
Fixpoint play_frames (pool : list SampleData.t) (n : nat) (clip : ClipData.t)
    : option (list (float * float) * ClipData.t) :=
  match n with
  | O => Some ([], clip)
  | S n' =>
      '(value, clip1) ← ClipData.NextStereo pool clip;
      '(rest, clip2) ← play_frames pool n' clip1;
      Some (value :: rest, clip2)
  end.

(** The values of every clip that is [Playing] when the callback starts,
    in pool order, together with the clip pool afterwards. *)
Fixpoint render_clips (pool : list SampleData.t) (framesPerBuffer : nat)
    (clips : list ClipData.t)
    : option (list (list (float * float)) * list ClipData.t) :=
  match clips with
  | [] => Some ([], [])
  | clip :: clips' =>
      if decide (ClipData.state clip ≠ Playing) then
        '(vs, rest) ← render_clips pool framesPerBuffer clips';
        Some (vs, clip :: rest)
      else
        '(v, clip') ← play_frames pool framesPerBuffer clip;
        '(vs, rest) ← render_clips pool framesPerBuffer clips';
        Some (v :: vs, clip' :: rest)
  end.

(** The frame a mono clip yields for the amplitude [x]: the scaled
    amplitude on both channels. *)
Definition mono_frame (volume x : float) : float * float :=
  (F32.mul x volume, F32.mul x volume).

(** An interleaved stereo buffer made of frames. *)
Definition interleave (fs : list (float * float)) : list float :=
  flat_map (λ f, [fst f; snd f]) fs.

Definition add_frame (a b : float * float) : float * float :=
  (F32.add (fst a) (fst b), F32.add (snd a) (snd b)).

(** What the clips contribute to one channel of frame [i]. *)
Definition channel (pick : float * float → float) (i : nat)
    (vs : list (list (float * float))) : list float :=
  omap (λ v, pick <$> v !! i) vs.

(** Left-to-right float summation starting from [x]. *)
Definition sum_from (x : float) (ys : list float) : float := foldl F32.add x ys.

(** The buffer whose every sample is the plain sum, in pool order and
    starting from 0.0, of what the clips contribute to it. *)
Definition mix_down (framesPerBuffer : nat) (vs : list (list (float * float)))
    : list float :=
  interleave
    (map (λ i, (sum_from F32.zero (channel fst i vs),
                sum_from F32.zero (channel snd i vs)))
         (seq 0 framesPerBuffer)).

(** [n] render periods in a row; the buffers are dropped. *)
Fixpoint callbacks (n : nat) (framesPerBuffer : nat) : Op unit :=
  match n with
  | O => ret tt
  | S n' => PortAudioCallback framesPerBuffer ;; callbacks n' framesPerBuffer
  end.

(** The number of [Playing] slots of a clip pool, as [GetPlayingClipCount]
    counts them. *)
Definition playing_count (clips : list ClipData.t) : Z :=
  foldl (λ count clip,
           if decide (ClipData.state clip = Playing) then count + 1 else count)
        0 clips.

(** Everything but clip slot [h] is the same in [g] and [g']. *)
Definition same_but_clip (h : Clip) (g g' : GlobalData) : Prop :=
  sampleData g' = sampleData g ∧
  availableSampleIds g' = availableSampleIds g ∧
  availableClipIds g' = availableClipIds g ∧
  List.length (clipData g') = List.length (clipData g) ∧
  ∀ h', h' ≠ h → clipData g' !! h' = clipData g !! h'.

(** [cd'] is [cd] with another state: cursor, volume, pan, loop counter
    and sample binding are those of [cd]. *)
Definition same_but_state (cd cd' : ClipData.t) : Prop :=
  ClipData.sampleIndex cd' = ClipData.sampleIndex cd ∧
  ClipData.volume cd' = ClipData.volume cd ∧
  ClipData.pan cd' = ClipData.pan cd ∧
  ClipData.loopCount cd' = ClipData.loopCount cd ∧
  ClipData.sample cd' = ClipData.sample cd.

(** The four structures a control operation may touch. *)
Definition same_pools (g g' : GlobalData) : Prop :=
  sampleData g' = sampleData g ∧ clipData g' = clipData g ∧
  availableSampleIds g' = availableSampleIds g ∧
  availableClipIds g' = availableClipIds g.

(** The frame a stereo clip yields for the amplitudes [l] and [r]. *)
Definition stereo_frame (volume pan l r : float) : float * float :=
  (F32.mul (F32.mul l volume) (F32.sub F32.one pan),
   F32.mul (F32.mul r volume) (F32.add F32.one pan)).

(** The frames of an interleaved buffer, two floats at a time. *)
Fixpoint stereo_frames (volume pan : float) (buf : list float)
    : list (float * float) :=
  match buf with
  | l :: r :: rest => stereo_frame volume pan l r :: stereo_frames volume pan rest
  | _ => []
  end.

(** *** Invariants of the engine state *)

(** A bound clip the render loop can read: the slot it points to owns a
    buffer of [length] floats, and while the clip is [Playing] its cursor
    is inside that buffer. *)
Definition clip_ok (pool : list SampleData.t) (c : ClipData.t) : Prop :=
  ∀ p, ClipData.sample c = Some p →
  ∃ sd buf, pool !! p = Some sd ∧ SampleData.data sd = Some buf ∧
            SampleData.length sd = Z.of_nat (List.length buf) ∧
            SampleData.length sd ≤ UINT_MAX ∧
            (ClipData.state c = Playing →
             0 ≤ ClipData.sampleIndex c < SampleData.length sd).

(** Only [Playing] clips are rendered. *)
Definition clip_safe (pool : list SampleData.t) (c : ClipData.t) : Prop :=
  ClipData.state c = Playing → clip_ok pool c.

Definition render_safe (g : GlobalData) : Prop :=
  Forall (clip_safe (sampleData g)) (clipData g).

(** What rendering may do to a clip: the binding, the volume and the pan
    stay, a clip that is not [Playing] stays as it is, and a [Playing] clip
    stays [Playing] or becomes [Complete]. *)
Definition rendered (c c' : ClipData.t) : Prop :=
  ClipData.sample c' = ClipData.sample c ∧
  ClipData.volume c' = ClipData.volume c ∧
  ClipData.pan c' = ClipData.pan c ∧
  (ClipData.state c ≠ Playing → c' = c) ∧
  (ClipData.state c = Playing →
   ClipData.state c' = Playing ∨ ClipData.state c' = Complete).


(** *** Specification-level views of [Flush] and of repeated allocation *)

(** What [Flush] does to the clip slot with index [h]. *)
Definition flush_clip (h : nat) (c : ClipData.t) : ClipData.t :=
  if decide (h ≠ 0%nat ∧ ClipData.state c = Complete) then ClipData.init else c.

(** The slots [clips], which start at index [i], after [Flush]. *)
Fixpoint flush_clips (i : nat) (clips : list ClipData.t) : list ClipData.t :=
  match clips with
  | [] => []
  | c :: clips' => flush_clip i c :: flush_clips (S i) clips'
  end.

(** The handles [Flush] releases from the slots [clips], which start at
    index [i], in the order in which it releases them. *)
Fixpoint flushed_ids (i : nat) (clips : list ClipData.t) : list Clip :=
  match clips with
  | [] => []
  | c :: clips' =>
      if decide (i ≠ 0%nat ∧ ClipData.state c = Complete)
      then i :: flushed_ids (S i) clips'
      else flushed_ids (S i) clips'
  end.


End Audio.

(** * The [Juke] player (the generation before [Audio])

    Clips and samples are heap objects here.  An owning pointer stored in a
    vector slot is [option] of the object.  The non-owning pointer
    [AudioClipData::sample] is the index of the [loadedSamples] slot that
    owned the object when the clip was made.  [clipsToFree], a set of
    pointers, is the list of objects moved into it. *)

Module Juke.

Definition AudioSample : Type := nat.
Definition AudioClip : Type := nat.
Bind Scope nat_scope with AudioSample AudioClip.

Definition MAX_SAMPLE_COUNT : nat := 2048.
Definition MAX_CLIP_COUNT : nat := 2048.

Record AudioSampleData := {
  data : list float;
  size : Z;
  stereo : bool
}.

Record AudioClipData := {
  sample : nat;
  position : Z;
  loop : bool;
  volume : float;
  pan : float;
  paused : bool;
  complete : bool
}.

Record State := {
  availableSampleIds : list AudioSample;
  availableClipsIds : list AudioClip;
  loadedSamples : list (option AudioSampleData);
  playingClips : list (option AudioClipData);
  clipsToFree : list AudioClipData;
  clipsInFlight : Z;
  error : string
}.

Definition Op (A : Type) : Type := StateOp State A.

Definition set_availableSampleIds (f : list AudioSample → list AudioSample) (s : State) :=
  {| availableSampleIds := f (availableSampleIds s);
     availableClipsIds := availableClipsIds s;
     loadedSamples := loadedSamples s; playingClips := playingClips s;
     clipsToFree := clipsToFree s; clipsInFlight := clipsInFlight s;
     error := error s |}.
Definition set_loadedSamples
    (f : list (option AudioSampleData) → list (option AudioSampleData)) (s : State) :=
  {| availableSampleIds := availableSampleIds s;
     availableClipsIds := availableClipsIds s;
     loadedSamples := f (loadedSamples s); playingClips := playingClips s;
     clipsToFree := clipsToFree s; clipsInFlight := clipsInFlight s;
     error := error s |}.
Definition set_availableClipsIds (f : list AudioClip → list AudioClip) (s : State) :=
  {| availableSampleIds := availableSampleIds s;
     availableClipsIds := f (availableClipsIds s);
     loadedSamples := loadedSamples s; playingClips := playingClips s;
     clipsToFree := clipsToFree s; clipsInFlight := clipsInFlight s;
     error := error s |}.
Definition set_playingClips
    (f : list (option AudioClipData) → list (option AudioClipData)) (s : State) :=
  {| availableSampleIds := availableSampleIds s;
     availableClipsIds := availableClipsIds s;
     loadedSamples := loadedSamples s; playingClips := f (playingClips s);
     clipsToFree := clipsToFree s; clipsInFlight := clipsInFlight s;
     error := error s |}.
Definition set_clipsToFree (f : list AudioClipData → list AudioClipData) (s : State) :=
  {| availableSampleIds := availableSampleIds s;
     availableClipsIds := availableClipsIds s;
     loadedSamples := loadedSamples s; playingClips := playingClips s;
     clipsToFree := f (clipsToFree s); clipsInFlight := clipsInFlight s;
     error := error s |}.
Definition set_clipsInFlight (f : Z → Z) (s : State) :=
  {| availableSampleIds := availableSampleIds s;
     availableClipsIds := availableClipsIds s;
     loadedSamples := loadedSamples s; playingClips := playingClips s;
     clipsToFree := clipsToFree s; clipsInFlight := f (clipsInFlight s);
     error := error s |}.
Definition set_error (e : string) (s : State) :=
  {| availableSampleIds := availableSampleIds s;
     availableClipsIds := availableClipsIds s;
     loadedSamples := loadedSamples s; playingClips := playingClips s;
     clipsToFree := clipsToFree s; clipsInFlight := clipsInFlight s;
     error := e |}.

(** [playingClips[i]] and [loadedSamples[i]], undefined outside the vector. *)
Definition clip_slot (i : AudioClip) : Op (option AudioClipData) :=
  v <- gets playingClips ;; lift (v !! i).
Definition sample_slot (i : AudioSample) : Op (option AudioSampleData) :=
  v <- gets loadedSamples ;; lift (v !! i).
Definition clip_store (i : AudioClip) (c : option AudioClipData) : Op unit :=
  clip_slot i ;; modify (set_playingClips (λ v, <[i := c]> v)).

(** The state after the container part of [Initialize]. *)
Definition Initialize : State :=
  {| availableSampleIds := seq 1 (MAX_SAMPLE_COUNT - 1);
     availableClipsIds := seq 1 (MAX_CLIP_COUNT - 1);
     loadedSamples := replicate MAX_SAMPLE_COUNT None;
     playingClips := replicate MAX_CLIP_COUNT None;
     clipsToFree := [];
     clipsInFlight := 0;
     error := "" |}.

(** [Load]; the [stereo] flag keeps its default. *)
Definition Load (path : string) (file : SndFile) : Op AudioSample :=
  if negb (file_exists file) then
    modify (set_error ("Error loading sample '" +:+ path +:+ "': File does not exist.")) ;;
    ret 0%nat
  else if negb (is_regular_file file) then
    modify (set_error ("Error loading sample '" +:+ path +:+ "': Path is not a file.")) ;;
    ret 0%nat
  else if file_error file then
    modify (set_error ("Error loading sample '" +:+ path +:+ "': " +:+ strError file)) ;;
    ret 0%nat
  else if negb (channels file =? 1) && negb (channels file =? 2) then
    modify (set_error ("Error loading sample '" +:+ path +:+ "': Sample must be mono or stereo.")) ;;
    ret 0%nat
  else if negb (samplerate file =? 44100) then
    modify (set_error ("Error loading sample '" +:+ path +:+ "': Sample must be 44100 Hz.")) ;;
    ret 0%nat
  else
    q <- gets availableSampleIds ;;
    match q with
    | [] => undefined
    | sampleId :: _ =>
        modify (set_availableSampleIds (drop 1)) ;;
        sample_slot sampleId ;;
        modify (set_loadedSamples (λ v,
          <[sampleId := Some {| data := pcm file;
                                size := wrap32 (frames file * channels file);
                                stereo := true |}]> v)) ;;
        ret sampleId
    end.

(** [Clip]. *)
Definition Clip (sample : AudioSample) : Op AudioClip :=
  if Nat.eqb sample 0 then
    modify (set_error "Error clipping sample: Invalid sample ID.") ;; ret 0%nat
  else
    loaded <- sample_slot sample ;;
    match loaded with
    | None =>
        modify (set_error "Error clipping sample: Sample has not been loaded.") ;;
        ret 0%nat
    | Some _ =>
        q <- gets availableClipsIds ;;
        match q with
        | [] => undefined
        | clipId :: _ =>
            modify (set_availableClipsIds (drop 1)) ;;
            clip_store clipId
              (Some {| sample := sample; position := 0; loop := false;
                       volume := F32.one; pan := F32.zero;
                       paused := true; complete := false |}) ;;
            ret clipId
        end
    end.

(** [Play]. *)
Definition Play (clip : AudioClip) : Op unit :=
  slot <- clip_slot clip ;;
  match slot with
  | None => ret tt
  | Some c =>
      clip_store clip
        (Some {| sample := sample c; position := 0; loop := loop c;
                 volume := volume c; pan := pan c;
                 paused := false; complete := false |}) ;;
      modify (set_clipsInFlight (λ n, wrap32 (n + 1)))
  end.

(** [IsPlaying]. *)
Definition IsPlaying (clip : AudioClip) : Op bool :=
  slot <- clip_slot clip ;;
  match slot with
  | None => ret false
  | Some c => ret (negb (complete c) && negb (paused c))
  end.

(** [Stop]. *)
Definition Stop (clip : AudioClip) : Op unit :=
  slot <- clip_slot clip ;;
  match slot with
  | None => ret tt
  | Some c =>
      modify (set_clipsToFree (λ w, w ++ [c])) ;;
      clip_store clip None ;;
      modify (set_availableClipsIds (λ q, q ++ [clip])) ;;
      modify (set_clipsInFlight (λ n, wrap32 (n - 1)))
  end.

(** [Flush]. *)
Fixpoint Flush_loop (n : nat) (i : nat) : Op unit :=
  match n with
  | O => ret tt
  | S n' =>
      slot <- clip_slot i ;;
      match slot with
      | Some c => if complete c then Stop i else ret tt
      | None => ret tt
      end ;;
      Flush_loop n' (S i)
  end.

Definition Flush : Op bool :=
  Flush_loop (MAX_CLIP_COUNT - 1) 1 ;;
  modify (set_clipsToFree (λ _, [])) ;;
  n <- gets clipsInFlight ;;
  ret (0 <? n).

(** The clamp at the end of the frame loop of [paCallback]. *)
Definition clamp (x : float) : float :=
  if F32.ltb F32.one x then F32.one
  else if F32.ltb x (F32.neg F32.one) then F32.neg F32.one
  else x.

(** One frame of [paCallback] for a clip whose [Next] produced [l] and [r]:
    constant power panning, accumulation and clamp. *)
Definition mix_frame (pan l r : float) (out : float * float) : float * float :=
  (clamp (F32.add (fst out) (F32.mul (F32.mul l (F32.sub F32.one pan)) F32.c0_707)),
   clamp (F32.add (snd out) (F32.mul (F32.mul r (F32.add F32.one pan)) F32.c0_707))).

(** *** The render callback of [Juke] *)

Definition set_position (n : Z) (c : AudioClipData) : AudioClipData :=
  {| sample := sample c; position := n; loop := loop c; volume := volume c;
     pan := pan c; paused := paused c; complete := complete c |}.
Definition set_complete (b : bool) (c : AudioClipData) : AudioClipData :=
  {| sample := sample c; position := position c; loop := loop c;
     volume := volume c; pan := pan c; paused := paused c; complete := b |}.

(** [clip->sample], dereferenced: the object in the slot the clip was made
    from.  Nothing in this embedding frees a sample, so the slot still
    holds that object. *)
Definition sample_of (samples : list (option AudioSampleData))
    (c : AudioClipData) : option AudioSampleData :=
  slot ← samples !! sample c; slot.

(** [sample->data[position++]] scaled by the volume. *)
Definition read (sd : AudioSampleData) (c : AudioClipData)
    : option (float * AudioClipData) :=
  value ← data sd !! Z.to_nat (position c);
  Some (F32.mul value (volume c), set_position (wrap32 (position c + 1)) c).

(** [AudioClipData::Next]. *)
Definition Next (samples : list (option AudioSampleData)) (c : AudioClipData)
    : option (float * AudioClipData) :=
  sd ← sample_of samples c;
  if size sd <? position c then
    if loop c then read sd (set_position 0 c)
    else Some (F32.zero, set_complete true c)
  else read sd c.

(** [n] successive calls of [Next]; the values returned. *)
Fixpoint next_run (samples : list (option AudioSampleData)) (n : nat)
    (c : AudioClipData) : option (list float * AudioClipData) :=
  match n with
  | O => Some ([], c)
  | S n' =>
      '(value, c1) ← Next samples c;
      '(rest, c2) ← next_run samples n' c1;
      Some (value :: rest, c2)
  end.

(** The frame loop of [paCallback] for one clip; [write] walks the
    buffer. *)
Fixpoint frame_loop (samples : list (option AudioSampleData))
    (framesPerBuffer : nat) (write : list float) (clip : AudioClipData)
    : option (list float * AudioClipData) :=
  match framesPerBuffer with
  | O => Some (write, clip)
  | S n =>
      match write with
      | left_ :: right_ :: write' =>
          sd ← sample_of samples clip;
          '(l, r, clip1) ←
            (if stereo sd then
               '(l, c1) ← Next samples clip;
               '(r, c2) ← Next samples c1;
               Some (l, r, c2)
             else
               '(value, c1) ← Next samples clip;
               Some (value, value, c1));
          let mixed := mix_frame (pan clip1) l r (left_, right_) in
          '(rest, clip2) ← frame_loop samples n write' clip1;
          Some (fst mixed :: snd mixed :: rest, clip2)
      | _ => None
      end
  end.

(** The loop over [playingClips]: empty slots and paused clips are
    skipped. *)
Fixpoint clip_loop (samples : list (option AudioSampleData))
    (framesPerBuffer : nat) (clips : list (option AudioClipData))
    (out : list float) : option (list float * list (option AudioClipData)) :=
  match clips with
  | [] => Some (out, [])
  | slot :: clips' =>
      match slot with
      | Some clip =>
          if paused clip then
            '(out', rest) ← clip_loop samples framesPerBuffer clips' out;
            Some (out', slot :: rest)
          else
            '(out1, clip') ← frame_loop samples framesPerBuffer out clip;
            '(out2, rest) ← clip_loop samples framesPerBuffer clips' out1;
            Some (out2, Some clip' :: rest)
      | None =>
          '(out', rest) ← clip_loop samples framesPerBuffer clips' out;
          Some (out', slot :: rest)
      end
  end.

(** [paCallback]: the result is the content of [outputBuffer]. *)
Definition paCallback (framesPerBuffer : nat) : Op (list float) :=
  λ s,
    let silence := replicate (framesPerBuffer * 2) F32.zero in
    '(out, clips) ← clip_loop (loadedSamples s) framesPerBuffer
                      (playingClips s) silence;
    Some (out, set_playingClips (λ _, clips) s).

(** A sample of the output that is a number inside [-1.0, 1.0], or NaN. *)
Definition clamped (x : float) : Prop :=
  x = S754_nan ∨ F32.in_unit_range x = true.

End Juke.

(** * Concrete engines and files used as test inputs *)

Module Scenario.
Import Audio.

Definition two : float := F32.of_Z 2.

Definition props (maxSamples maxClips : nat) : Properties :=
  {| bufferSize := 256; sampleRate := 44100;
     maxSampleCount := maxSamples; maxClipCount := maxClips |}.

(** The engine right after a successful [Initialize]. *)
Definition fresh (maxSamples maxClips : nat) : GlobalData :=
  snd (Initialize (props maxSamples maxClips) None).

(** The state a program of calls leaves behind when run from [s]. *)
Definition after {S A : Type} (m : StateOp S A) (s : S) : S :=
  default s (run m s).

(** A readable 44100 Hz file with the given channel count and content. *)
Definition wav (chans : Z) (content : list float) : SndFile :=
  {| file_exists := true; is_regular_file := true; file_error := false;
     strError := ""; channels := chans; samplerate := 44100;
     frames := Z.of_nat (List.length content) / chans; pcm := content |}.

(** One mono sample of full-scale amplitude, one clip on it, playing. *)
Definition one_playing : Op Clip :=
  s <- CreateSample "a.wav" (wav 1 [F32.one; F32.one]) ;;
  c <- CreateClip s ;;
  Play c ;;
  ret c.

(** Two clips playing the same full-scale mono sample. *)
Definition two_playing : Op unit :=
  s <- CreateSample "a.wav" (wav 1 [F32.one; F32.one]) ;;
  c1 <- CreateClip s ;;
  c2 <- CreateClip s ;;
  Play c1 ;;
  Play c2.

(** A playing mono clip panned hard left. *)
Definition mono_hard_left : Op Clip :=
  c <- one_playing ;;
  SetClipPan c (F32.neg F32.one) ;;
  ret c.

(** A playing stereo clip (frames of left 1.0 and right 2.0) panned hard
    left. *)
Definition stereo_hard_left : Op Clip :=
  s <- CreateSample "s.wav" (wav 2 [F32.one; two; F32.one; two]) ;;
  c <- CreateClip s ;;
  SetClipPan c (F32.neg F32.one) ;;
  Play c ;;
  ret c.

(** A clip is made, played and destroyed, and a clip is made again with no
    [Flush] in between. *)
Definition destroy_then_create : Op (Clip * Clip) :=
  s <- CreateSample "a.wav" (wav 1 [F32.one; F32.one]) ;;
  c <- CreateClip s ;;
  Play c ;;
  DestroyClip c ;;
  c' <- CreateClip s ;;
  ret (c, c').

(** The [Juke] player with one loaded sample and one playing clip. *)
Definition juke_one_playing : Juke.Op Juke.AudioClip :=
  s <- Juke.Load "loop1.wav" (wav 1 [F32.one; F32.one]) ;;
  c <- Juke.Clip s ;;
  Juke.Play c ;;
  ret c.

(** A mono clip of three frames with loop counter [k], playing. *)
Definition looping (k : Z) : Op Clip :=
  s <- CreateSample "a.wav" (wav 1 [F32.one; two; F32.one]) ;;
  c <- CreateClip s ;;
  SetClipLoop c k ;;
  Play c ;;
  ret c.

End Scenario.

(** * Properties of the control operations *)

Import Audio.

(** Unfolds a control operation down to the state it returns. *)
Ltac run_op :=
  unfold DestroySample, DestroyClip, CreateClip, PlaySample, Play, Pause,
    GetClipVolume, GetClipPan, GetClipLoop, GetClipPosition,
    SetClipVolume, SetClipPan, SetClipLoop, SetClipPosition, IsClipPlaying,
    GetPlayingClipCount, pop_clip_id, pop_sample_id, set_error,
    clip_update, sample_update, clip_at, sample_at,
    bind, ret, gets, modify, lift, undefined; simpl.

Lemma clip_update_some (f : ClipData.t → ClipData.t) (g : GlobalData)
    (h : Clip) (cd : ClipData.t) :
  clipData g !! h = Some cd →
  clip_update h f g = Some (tt, set_clipData (λ pool, <[h := f cd]> pool) g).
Proof. intros Hcd. run_op. by rewrite Hcd. Qed.

Lemma sample_update_some (f : SampleData.t → SampleData.t) (g : GlobalData)
    (s : Sample) (sd : SampleData.t) :
  sampleData g !! s = Some sd →
  sample_update s f g = Some (tt, set_sampleData (λ pool, <[s := f sd]> pool) g).
Proof. intros Hsd. run_op. by rewrite Hsd. Qed.

Lemma nonzero_eqb (h : nat) : h ≠ 0%nat → Nat.eqb h 0 = false.
Proof. intros. by apply Nat.eqb_neq. Qed.

(** [DestroySample] on a nonzero handle that indexes the pool. *)
Lemma DestroySample_nonzero (g : GlobalData) (s : Sample) (sd : SampleData.t) :
  s ≠ 0%nat → sampleData g !! s = Some sd →
  DestroySample s g =
    Some (tt, set_availableSampleIds (λ q, q ++ [s])
                (set_sampleData (λ pool, <[s := SampleData.Reset sd]> pool) g)).
Proof.
  intros Hs Hsd. unfold DestroySample. rewrite (nonzero_eqb _ Hs).
  unfold bind. by rewrite (sample_update_some _ _ _ _ Hsd).
Qed.

Lemma same_pools_refl (g : GlobalData) : same_pools g g.
Proof. by repeat split. Qed.

Lemma same_pools_set_error (g : GlobalData) (e : string) :
  same_pools g (set_errorString e g).
Proof. by repeat split. Qed.

(** C6. [Play] on a [Paused] clip makes it [Playing], [Pause] on a
    [Playing] clip makes it [Paused]; in both cases the cursor, the volume,
    the pan, the loop counter and the sample binding of the clip are what
    they were (so playback resumes from the current cursor), and no other
    clip slot, no sample slot and no free list changes. *)
Theorem Play_Pause_change_only_the_state (g : GlobalData) (h : Clip)
    (cd : ClipData.t) :
  h ≠ 0%nat →
  clipData g !! h = Some cd →
  (ClipData.state cd = Paused →
   ∃ g' cd', Play h g = Some (tt, g') ∧ clipData g' !! h = Some cd' ∧
             ClipData.state cd' = Playing ∧ same_but_state cd cd' ∧
             same_but_clip h g g') ∧
  (ClipData.state cd = Playing →
   ∃ g' cd', Pause h g = Some (tt, g') ∧ clipData g' !! h = Some cd' ∧
             ClipData.state cd' = Paused ∧ same_but_state cd cd' ∧
             same_but_clip h g g').
Proof.
  intros Hh Hcd.
  assert (Hlt : (h < List.length (clipData g))%nat) by by eapply lookup_lt_Some.
  split; intros _.
  - exists (set_clipData (λ pool, <[h := ClipData.set_state Playing cd]> pool) g),
      (ClipData.set_state Playing cd).
    unfold Play. rewrite (nonzero_eqb _ Hh), (clip_update_some _ _ _ _ Hcd).
    simpl. rewrite list_lookup_insert_eq by done.
    repeat split; try done; simpl.
    + by rewrite length_insert.
    + intros h' Hne. by rewrite list_lookup_insert_ne.
  - exists (set_clipData (λ pool, <[h := ClipData.set_state Paused cd]> pool) g),
      (ClipData.set_state Paused cd).
    unfold Pause. rewrite (nonzero_eqb _ Hh), (clip_update_some _ _ _ _ Hcd).
    simpl. rewrite list_lookup_insert_eq by done.
    repeat split; try done; simpl.
    + by rewrite length_insert.
    + intros h' Hne. by rewrite list_lookup_insert_ne.
Qed.

(** C6, at concrete engines: a clip that was played and paused is played
    again, and a playing clip is paused. *)
Lemma Play_Pause_change_only_the_state_witness :
  let paused := Scenario.after (Scenario.one_playing ;; Pause 1) (Scenario.fresh 1 1) in
  let playing := Scenario.after Scenario.one_playing (Scenario.fresh 1 1) in
  let cd := ClipData.Build (Some 1%nat) Paused 0 F32.one F32.zero 0 in
  let cd0 := ClipData.Build (Some 1%nat) Playing 0 F32.one F32.zero 0 in
  (clipData paused !! 1%nat = Some cd ∧
   ∃ g' cd', Play 1 paused = Some (tt, g') ∧ clipData g' !! 1%nat = Some cd' ∧
             ClipData.state cd' = Playing ∧ same_but_state cd cd' ∧
             same_but_clip 1 paused g') ∧
  (clipData playing !! 1%nat = Some cd0 ∧
   ∃ g' cd', Pause 1 playing = Some (tt, g') ∧ clipData g' !! 1%nat = Some cd' ∧
             ClipData.state cd' = Paused ∧ same_but_state cd0 cd' ∧
             same_but_clip 1 playing g').
Proof.
  intros paused playing cd cd0.
  assert (Hpaused : clipData paused !! 1%nat = Some cd)
    by (vm_compute; reflexivity).
  assert (Hplaying : clipData playing !! 1%nat = Some cd0)
    by (vm_compute; reflexivity).
  split; (split; [assumption|]).
  - apply (Play_Pause_change_only_the_state paused 1%nat cd); [lia|done|done].
  - apply (Play_Pause_change_only_the_state playing 1%nat cd0); [lia|done|done].
Defined.

(** C8. Every [Audio] operation that takes a sample or a clip handle
    rejects handle 0: it returns its sentinel (nothing, 0, 0.0 or false)
    and leaves both pools and both free lists as they are; only the three
    sample-handle operations record an error string.  The statement holds
    for every engine state, also one whose pools are empty, where reading
    any slot would be undefined: no slot is read. *)
Theorem handle_zero_is_rejected (g : GlobalData) :
  (∃ g', DestroySample 0 g = Some (tt, g') ∧ same_pools g g') ∧
  (∃ g', PlaySample 0 g = Some (0%nat, g') ∧ same_pools g g') ∧
  (∃ g', CreateClip 0 g = Some (0%nat, g') ∧ same_pools g g') ∧
  DestroyClip 0 g = Some (tt, g) ∧
  Play 0 g = Some (tt, g) ∧
  Pause 0 g = Some (tt, g) ∧
  GetClipVolume 0 g = Some (F32.zero, g) ∧
  GetClipPan 0 g = Some (F32.zero, g) ∧
  GetClipLoop 0 g = Some (0, g) ∧
  GetClipPosition 0 g = Some (F32.zero, g) ∧
  (∀ volume, SetClipVolume 0 volume g = Some (tt, g)) ∧
  (∀ pan, SetClipPan 0 pan g = Some (tt, g)) ∧
  (∀ count, SetClipLoop 0 count g = Some (tt, g)) ∧
  (∀ position, SetClipPosition 0 position g = Some (tt, g)) ∧
  IsClipPlaying 0 g = Some (false, g).
Proof.
  repeat split; try done.
  - eexists. split; [reflexivity|]. apply same_pools_set_error.
  - eexists. split; [reflexivity|]. apply same_pools_set_error.
  - eexists. split; [reflexivity|]. apply same_pools_set_error.
Qed.

(** C9, as the code has it.  [DestroySample 0] is a no-op on the pools and
    the free lists.  For a nonzero handle inside the pool the slot is
    reset and the handle is pushed onto the sample free list, whether the
    slot held a sample or was already free; the clip pool and the clip
    free list are untouched.  A handle outside the pool is not checked for:
    indexing the vector with it is undefined. *)
Theorem DestroySample_checks_only_zero (g : GlobalData) :
  (∃ g', DestroySample 0 g = Some (tt, g') ∧ same_pools g g') ∧
  (∀ (s : Sample) (sd : SampleData.t),
     s ≠ 0%nat → sampleData g !! s = Some sd →
     ∃ g', DestroySample s g = Some (tt, g') ∧
           sampleData g' = <[s := SampleData.init]> (sampleData g) ∧
           availableSampleIds g' = availableSampleIds g ++ [s] ∧
           clipData g' = clipData g ∧
           availableClipIds g' = availableClipIds g) ∧
  (∀ s : Sample, s ≠ 0%nat → sampleData g !! s = None → DestroySample s g = None).
Proof.
  split; [|split].
  - eexists. split; [reflexivity|]. apply same_pools_set_error.
  - intros s sd Hs Hsd. eexists. split; [by apply DestroySample_nonzero|done].
  - intros s Hs Hnone. unfold DestroySample. rewrite (nonzero_eqb _ Hs).
    run_op. by rewrite Hnone.
Qed.

(** C9, at a concrete engine: destroying sample 1 of a fresh engine, a
    handle that is free, pushes it onto the free list. *)
Lemma DestroySample_checks_only_zero_witness :
  ∃ g', DestroySample 1 (Scenario.fresh 1 1) = Some (tt, g') ∧
        sampleData g' = <[1%nat := SampleData.init]> (sampleData (Scenario.fresh 1 1)) ∧
        availableSampleIds g' = availableSampleIds (Scenario.fresh 1 1) ++ [1%nat] ∧
        clipData g' = clipData (Scenario.fresh 1 1) ∧
        availableClipIds g' = availableClipIds (Scenario.fresh 1 1).
Proof.
  destruct (DestroySample_checks_only_zero (Scenario.fresh 1 1)) as (_ & H & _).
  apply (H 1%nat SampleData.init); [lia|reflexivity].
Defined.

(** C9 fails as stated: on a fresh engine, where sample handle 1 is free
    and sits in the free list, [DestroySample 1] is not a no-op: the
    handle is pushed a second time. *)
Lemma DestroySample_on_free_handle_pushes_it :
  availableSampleIds (Scenario.fresh 1 1) = [1%nat] ∧
  (SampleData.data <$> sampleData (Scenario.fresh 1 1) !! 1%nat) = Some None ∧
  (availableSampleIds <$> run (DestroySample 1) (Scenario.fresh 1 1))
    = Some [1%nat; 1%nat].
Proof. by vm_compute. Qed.

(** C1, as the code has it.  [DestroySample] on a nonzero handle inside
    the pool releases the buffer of the slot at once: when it returns the
    slot is back to its defaults (no buffer, length 0) and the handle is
    at the back of the sample free list.  There is no deferred reclamation
    of sample slots. *)
Theorem DestroySample_frees_at_once (g : GlobalData) (s : Sample)
    (sd : SampleData.t) :
  s ≠ 0%nat →
  sampleData g !! s = Some sd →
  ∃ g' sd', DestroySample s g = Some (tt, g') ∧
            sampleData g' !! s = Some sd' ∧
            SampleData.data sd' = None ∧ SampleData.length sd' = 0 ∧
            availableSampleIds g' = availableSampleIds g ++ [s].
Proof.
  intros Hs Hsd. eexists _, SampleData.init.
  split; [by apply DestroySample_nonzero|].
  simpl. rewrite list_lookup_insert_eq; [done|by eapply lookup_lt_Some].
Qed.

(** C1, at a concrete engine: the sample under a playing clip is destroyed. *)
Lemma DestroySample_frees_at_once_witness :
  let g := Scenario.after Scenario.one_playing (Scenario.fresh 1 1) in
  let sd := SampleData.Build (Some [F32.one; F32.one]) 2 true in
  sampleData g !! 1%nat = Some sd ∧
  ∃ g' sd', DestroySample 1 g = Some (tt, g') ∧
            sampleData g' !! 1%nat = Some sd' ∧
            SampleData.data sd' = None ∧ SampleData.length sd' = 0 ∧
            availableSampleIds g' = availableSampleIds g ++ [1%nat].
Proof.
  intros g sd.
  assert (Hsd : sampleData g !! 1%nat = Some sd) by (vm_compute; reflexivity).
  split; [assumption|].
  apply (DestroySample_frees_at_once g 1%nat sd); [lia|assumption].
Defined.

(** C1 fails as stated.  In the engine reached by loading a sample, making
    a clip on it and playing it, clip 1 is [Playing] and bound to sample
    slot 1, which owns a buffer.  [DestroySample 1] then releases that
    buffer at once and recycles the handle, while the clip is still bound
    to the slot and still [Playing]: no clip was stopped and nothing was
    deferred.  The next render period dereferences the released buffer. *)
Lemma DestroySample_frees_buffer_under_playing_clip :
  ∃ g g' cd,
    run Scenario.one_playing (Scenario.fresh 1 1) = Some g ∧
    clipData g !! 1%nat = Some cd ∧
    ClipData.state cd = Playing ∧ ClipData.sample cd = Some 1%nat ∧
    (SampleData.data <$> sampleData g !! 1%nat)
      = Some (Some [F32.one; F32.one]) ∧
    DestroySample 1 g = Some (tt, g') ∧
    (SampleData.data <$> sampleData g' !! 1%nat) = Some None ∧
    clipData g' !! 1%nat = Some cd ∧
    availableSampleIds g' = [1%nat] ∧
    PortAudioCallback 1 g' = None.
Proof.
  eexists _, _, _.
  repeat (split; [vm_compute; reflexivity|]).
  vm_compute; reflexivity.
Qed.

(** C7, as the code has it.  [CreateClip 0] fails: it returns 0 and
    leaves pools and free lists alone; so does [CreateClip] when no clip
    id is left.  For a nonzero sample handle inside the pool it succeeds
    whenever a clip id is left, whether or not the sample slot holds a
    loaded sample: the id at the front of the free list is taken, that clip
    slot is reset and bound to the sample slot, and the id is returned. *)
Theorem CreateClip_binds_unloaded_slots_too (g : GlobalData) :
  (∃ g', CreateClip 0 g = Some (0%nat, g') ∧ same_pools g g') ∧
  (∀ s : Sample, s ≠ 0%nat → availableClipIds g = [] →
     ∃ g', CreateClip s g = Some (0%nat, g') ∧ same_pools g g') ∧
  (∀ (s : Sample) (sd : SampleData.t) (clipId : Clip) (q : list Clip)
     (cd : ClipData.t),
     s ≠ 0%nat → sampleData g !! s = Some sd →
     availableClipIds g = clipId :: q → clipData g !! clipId = Some cd →
     ∃ g', CreateClip s g = Some (clipId, g') ∧
           availableClipIds g' = q ∧
           clipData g' =
             <[clipId := ClipData.set_sample (Some s) ClipData.init]> (clipData g) ∧
           sampleData g' = sampleData g ∧
           availableSampleIds g' = availableSampleIds g).
Proof.
  split; [|split].
  - eexists. split; [reflexivity|]. apply same_pools_set_error.
  - intros s Hs Hq. unfold CreateClip. rewrite (nonzero_eqb _ Hs).
    run_op. rewrite Hq. simpl.
    eexists. split; [reflexivity|]. by repeat split.
  - intros s sd clipId q cd Hs Hsd Hq Hcd.
    assert (Hlt : (clipId < List.length (clipData g))%nat)
      by by eapply lookup_lt_Some.
    unfold CreateClip. rewrite (nonzero_eqb _ Hs).
    run_op. rewrite Hq. simpl. rewrite Hq. simpl.
    rewrite Hcd. simpl. rewrite Hsd. simpl.
    rewrite list_lookup_insert_eq by done. simpl.
    eexists. split; [reflexivity|]. simpl.
    rewrite Hq, list_insert_insert_eq. by repeat split.
Qed.

(** C7, at a concrete engine: sample slot 1 of a fresh engine was never
    loaded, and [CreateClip 1] hands out clip 1 bound to it. *)
Lemma CreateClip_binds_unloaded_slots_too_witness :
  ∃ g', CreateClip 1 (Scenario.fresh 1 1) = Some (1%nat, g') ∧
        availableClipIds g' = [] ∧
        clipData g' =
          <[1%nat := ClipData.set_sample (Some 1%nat) ClipData.init]>
            (clipData (Scenario.fresh 1 1)) ∧
        sampleData g' = sampleData (Scenario.fresh 1 1) ∧
        availableSampleIds g' = availableSampleIds (Scenario.fresh 1 1).
Proof.
  destruct (CreateClip_binds_unloaded_slots_too (Scenario.fresh 1 1))
    as (_ & _ & H).
  apply (H 1%nat SampleData.init 1%nat [] ClipData.init);
    [lia|reflexivity|reflexivity|reflexivity].
Defined.

(** C7 fails as stated: on a fresh engine sample slot 1 holds no loaded
    sample, yet [CreateClip 1] returns the nonzero clip handle 1, takes it
    off the free list and binds clip slot 1 to the empty sample slot. *)
Lemma CreateClip_on_unloaded_sample_allocates :
  (SampleData.data <$> sampleData (Scenario.fresh 1 1) !! 1%nat) = Some None ∧
  availableClipIds (Scenario.fresh 1 1) = [1%nat] ∧
  result (CreateClip 1) (Scenario.fresh 1 1) = Some 1%nat ∧
  (availableClipIds <$> run (CreateClip 1) (Scenario.fresh 1 1)) = Some [] ∧
  result (CreateClip 1 ;; cd <- clip_at 1 ;; ret (ClipData.sample cd))
         (Scenario.fresh 1 1) = Some (Some 1%nat).
Proof. repeat split; vm_compute; reflexivity. Qed.

(** ** [Juke]: stopping a clip *)

Ltac run_juke :=
  unfold Juke.Stop, Juke.IsPlaying, Juke.Play, Juke.Clip, Juke.clip_store,
    Juke.clip_slot, Juke.sample_slot,
    bind, ret, gets, modify, lift, undefined; simpl.

(** C2, as the code has it.  Stopping a clip makes it not playing and puts
    its handle on the clip free list in the same call, with no [Flush]
    involved; the handle is handed out again by a later clip creation once
    it reaches the front of the queue.  In [Audio] the operation is
    [DestroyClip]; in [Juke] it is [Stop], which defers only the release
    of the clip object (moved to [clipsToFree]). *)
Theorem stop_frees_the_handle_at_once :
  (∀ (g : GlobalData) (h : Clip) (cd : ClipData.t),
     h ≠ 0%nat → clipData g !! h = Some cd →
     ∃ g', DestroyClip h g = Some (tt, g') ∧
           IsClipPlaying h g' = Some (false, g') ∧
           availableClipIds g' = availableClipIds g ++ [h]) ∧
  (∀ (s : Juke.State) (h : Juke.AudioClip) (c : Juke.AudioClipData),
     Juke.playingClips s !! h = Some (Some c) →
     ∃ s', Juke.Stop h s = Some (tt, s') ∧
           Juke.IsPlaying h s' = Some (false, s') ∧
           Juke.availableClipsIds s' = Juke.availableClipsIds s ++ [h] ∧
           Juke.clipsToFree s' = Juke.clipsToFree s ++ [c]).
Proof.
  split.
  - intros g h cd Hh Hcd.
    assert (Hlt : (h < List.length (clipData g))%nat)
      by by eapply lookup_lt_Some.
    unfold DestroyClip, IsClipPlaying. rewrite (nonzero_eqb _ Hh).
    unfold bind at 1. rewrite (clip_update_some _ _ _ _ Hcd).
    eexists. split; [reflexivity|].
    run_op. by rewrite list_lookup_insert_eq.
  - intros s h c Hc.
    assert (Hlt : (h < List.length (Juke.playingClips s))%nat)
      by by eapply lookup_lt_Some.
    run_juke. rewrite Hc. simpl. rewrite Hc. simpl.
    eexists. split; [reflexivity|]. simpl.
    by rewrite list_lookup_insert_eq.
Qed.

(** C2, at concrete players: the playing clip 1 of each is stopped. *)
Lemma stop_frees_the_handle_at_once_witness :
  let g := Scenario.after Scenario.one_playing (Scenario.fresh 1 1) in
  let s := Scenario.after Scenario.juke_one_playing Juke.Initialize in
  (∃ g', DestroyClip 1 g = Some (tt, g') ∧
         IsClipPlaying 1 g' = Some (false, g') ∧
         availableClipIds g' = availableClipIds g ++ [1%nat]) ∧
  (∃ s', Juke.Stop 1 s = Some (tt, s') ∧
         Juke.IsPlaying 1 s' = Some (false, s') ∧
         Juke.availableClipsIds s' = Juke.availableClipsIds s ++ [1%nat] ∧
         Juke.clipsToFree s' =
           Juke.clipsToFree s ++
             [Juke.Build_AudioClipData 1 0 false F32.one F32.zero false false]).
Proof.
  intros g s. split.
  - apply (proj1 stop_frees_the_handle_at_once g 1%nat
             (ClipData.Build (Some 1%nat) Playing 0 F32.one F32.zero 0));
      [lia|vm_compute; reflexivity].
  - apply (proj2 stop_frees_the_handle_at_once s 1%nat
             (Juke.Build_AudioClipData 1 0 false F32.one F32.zero false false)).
    vm_compute. reflexivity.
Defined.

(** C2 fails as stated.  In [Audio], a clip is made, played and destroyed
    and the next [CreateClip], with no [Flush] in between, returns the
    same handle.  In [Juke], right after [Stop] the handle is the last
    entry of the free list, again with no [Flush]. *)
Lemma stopped_handle_is_reusable_without_Flush :
  result Scenario.destroy_then_create (Scenario.fresh 1 1)
    = Some (1%nat, 1%nat) ∧
  result (c <- Scenario.juke_one_playing ;;
          Juke.Stop c ;;
          playing <- Juke.IsPlaying c ;;
          q <- gets Juke.availableClipsIds ;;
          ret (c, playing, last q))
         Juke.Initialize
    = Some (1%nat, false, Some 1%nat).
Proof. split; vm_compute; reflexivity. Qed.

(** * Properties of the render loop *)

(** ** Clips with no bound sample *)

Lemma NextStereo_unbound (pool : list SampleData.t) (c : ClipData.t) :
  ClipData.sample c = None →
  ClipData.NextStereo pool c = Some ((F32.zero, F32.zero), c).
Proof. intros Hc. unfold ClipData.NextStereo. by rewrite Hc. Qed.

Lemma mix_frames_unbound (pool : list SampleData.t) (n : nat)
    (out : list float) (c : ClipData.t) :
  ClipData.sample c = None →
  List.length out = (2 * n)%nat →
  mix_frames pool n out c = Some (map (λ x, F32.add x F32.zero) out, c).
Proof.
  intros Hc. revert out.
  induction n as [|n IH]; intros out Hlen.
  - destruct out; [done|discriminate].
  - destruct out as [|l [|r out]]; simpl in Hlen; try lia.
    simpl. rewrite (NextStereo_unbound _ _ Hc). simpl.
    rewrite IH; [done|lia].
Qed.

Lemma mix_frames_unbound_inv (pool : list SampleData.t) (n : nat)
    (out out' : list float) (c c' : ClipData.t) :
  ClipData.sample c = None →
  mix_frames pool n out c = Some (out', c') → c' = c.
Proof.
  intros Hc. revert out out'.
  induction n as [|n IH]; intros out out' Hmix.
  - simpl in Hmix. by injection Hmix as _ <-.
  - destruct out as [|l [|r out]]; try discriminate.
    simpl in Hmix. rewrite (NextStereo_unbound _ _ Hc) in Hmix. simpl in Hmix.
    destruct (mix_frames pool n out c) as [[rest c2]|] eqn:Hrest;
      [|simpl in *; discriminate].
    simpl in Hmix. injection Hmix as _ <-. by eapply IH.
Qed.

Lemma mix_clips_unbound (pool : list SampleData.t) (n : nat)
    (clips clips' : list ClipData.t) (out out' : list float)
    (h : nat) (c : ClipData.t) :
  mix_clips pool n clips out = Some (out', clips') →
  clips !! h = Some c → ClipData.sample c = None →
  clips' !! h = Some c.
Proof.
  revert clips' out out' h.
  induction clips as [|c0 clips IH]; intros clips' out out' h Hmix Hh Hc;
    [done|].
  simpl in Hmix. destruct (decide (ClipData.state c0 ≠ Playing)) as [Hst|Hst].
  - destruct (mix_clips pool n clips out) as [[o rest]|] eqn:Hrest;
      [|simpl in *; discriminate].
    simpl in Hmix. injection Hmix as _ <-.
    destruct h as [|h]; [exact Hh|]. simpl in *. by eapply IH.
  - destruct (mix_frames pool n out c0) as [[out1 c1]|] eqn:Hfr;
      [|simpl in *; discriminate].
    simpl in Hmix.
    destruct (mix_clips pool n clips out1) as [[o rest]|] eqn:Hrest;
      [|simpl in *; discriminate].
    simpl in Hmix. injection Hmix as _ <-.
    destruct h as [|h].
    + simpl in Hh. injection Hh as ->. simpl.
      by rewrite (mix_frames_unbound_inv _ _ _ _ _ _ Hc Hfr).
    + simpl in *. by eapply IH.
Qed.

Lemma callbacks_unbound (n framesPerBuffer : nat) (g g' : GlobalData)
    (h : Clip) (c : ClipData.t) :
  callbacks n framesPerBuffer g = Some (tt, g') →
  clipData g !! h = Some c → ClipData.sample c = None →
  clipData g' !! h = Some c.
Proof.
  revert g. induction n as [|n IH]; intros g Hrun Hh Hc.
  - simpl in Hrun. by injection Hrun as <-.
  - simpl in Hrun. unfold bind, PortAudioCallback in Hrun.
    destruct (mix_clips (sampleData g) framesPerBuffer (clipData g)
                (replicate (framesPerBuffer * 2) F32.zero))
      as [[out clips]|] eqn:Hmix; [|simpl in *; discriminate].
    simpl in Hrun. eapply IH; [exact Hrun| |done].
    simpl. by eapply mix_clips_unbound.
Qed.

(** ** Counting playing clips *)

Lemma playing_count_from (a : Z) (clips : list ClipData.t) :
  foldl (λ count clip,
           if decide (ClipData.state clip = Playing) then count + 1 else count)
        a clips
  = a + playing_count clips.
Proof.
  unfold playing_count. revert a.
  induction clips as [|c clips IH]; intros a; simpl; [lia|].
  rewrite (IH (if decide _ then _ else _)), (IH (if decide _ then 0 + 1 else 0)).
  destruct (decide _); lia.
Qed.

Lemma playing_count_app (l1 l2 : list ClipData.t) :
  playing_count (l1 ++ l2) = playing_count l1 + playing_count l2.
Proof.
  unfold playing_count at 1. rewrite foldl_app.
  by rewrite playing_count_from.
Qed.

Lemma playing_count_cons (c : ClipData.t) (l : list ClipData.t) :
  playing_count (c :: l)
  = (if decide (ClipData.state c = Playing) then 1 else 0) + playing_count l.
Proof.
  unfold playing_count at 1. simpl. rewrite playing_count_from.
  destruct (decide _); lia.
Qed.

Lemma playing_count_nonneg (l : list ClipData.t) : 0 ≤ playing_count l.
Proof.
  induction l as [|c l IH]; [done|].
  rewrite playing_count_cons. destruct (decide _); lia.
Qed.

Lemma playing_count_lookup (l : list ClipData.t) (h : nat) (c : ClipData.t) :
  l !! h = Some c →
  (if decide (ClipData.state c = Playing) then 1 else 0) ≤ playing_count l.
Proof.
  intros Hh. rewrite <- (take_drop_middle l h c Hh).
  rewrite playing_count_app, playing_count_cons.
  pose proof (playing_count_nonneg (take h l)).
  pose proof (playing_count_nonneg (drop (S h) l)). lia.
Qed.

Lemma playing_count_insert (l : list ClipData.t) (h : nat) (c c' : ClipData.t) :
  l !! h = Some c →
  playing_count (<[h := c']> l)
  = playing_count l
    - (if decide (ClipData.state c = Playing) then 1 else 0)
    + (if decide (ClipData.state c' = Playing) then 1 else 0).
Proof.
  intros Hh.
  assert (Hlt : (h < List.length l)%nat) by by eapply lookup_lt_Some.
  rewrite insert_take_drop by done.
  rewrite <- (take_drop_middle l h c Hh) at 3.
  rewrite !playing_count_app, !playing_count_cons. lia.
Qed.

(** C10. For a nonzero clip handle inside the pool, [Play] sets the
    slot to [Playing] whatever the slot was, also a slot that no
    [CreateClip] handed out or that was reset on destruction.  When the
    slot has no bound sample it is then counted by [GetPlayingClipCount]
    (the count is at least 1, and one more than before if the slot was not
    already [Playing]), every frame it yields is (0.0, 0.0) so that the
    mixer adds 0.0 to every sample of the buffer, and the slot is the same
    [Playing] slot after any number of render callbacks: it never becomes
    [Complete]. *)
Theorem Play_on_unbound_slot_plays_silence_forever (g : GlobalData) (h : Clip)
    (cd : ClipData.t) :
  h ≠ 0%nat →
  clipData g !! h = Some cd →
  ∃ g' cd',
    Play h g = Some (tt, g') ∧ clipData g' !! h = Some cd' ∧
    ClipData.state cd' = Playing ∧ same_but_state cd cd' ∧
    (ClipData.sample cd = None →
     (∃ n, GetPlayingClipCount g' = Some (n, g') ∧ 1 ≤ n ∧
           (ClipData.state cd ≠ Playing →
            GetPlayingClipCount g = Some (n - 1, g))) ∧
     ClipData.NextStereo (sampleData g') cd' = Some ((F32.zero, F32.zero), cd') ∧
     (∀ (framesPerBuffer : nat) (out : list float),
        List.length out = (2 * framesPerBuffer)%nat →
        mix_frames (sampleData g') framesPerBuffer out cd'
        = Some (map (λ x, F32.add x F32.zero) out, cd')) ∧
     (∀ (n framesPerBuffer : nat) (g'' : GlobalData),
        callbacks n framesPerBuffer g' = Some (tt, g'') →
        clipData g'' !! h = Some cd')).
Proof.
  intros Hh Hcd.
  assert (Hlt : (h < List.length (clipData g))%nat) by by eapply lookup_lt_Some.
  exists (set_clipData (λ pool, <[h := ClipData.set_state Playing cd]> pool) g),
    (ClipData.set_state Playing cd).
  assert (Hslot : <[h := ClipData.set_state Playing cd]> (clipData g) !! h
                  = Some (ClipData.set_state Playing cd))
    by by rewrite list_lookup_insert_eq.
  split; [|split; [|split; [|split]]]; try done.
  - unfold Play. by rewrite (nonzero_eqb _ Hh), (clip_update_some _ _ _ _ Hcd).
  - intros Hunbound.
    assert (Hunbound' : ClipData.sample (ClipData.set_state Playing cd) = None)
      by done.
    split; [|split; [|split]].
    + exists (playing_count (<[h := ClipData.set_state Playing cd]> (clipData g))).
      split; [done|].
      rewrite (playing_count_insert _ _ _ _ Hcd). simpl.
      pose proof (playing_count_lookup (clipData g) h cd Hcd) as Hpos.
      split.
      * destruct (decide (ClipData.state cd = Playing)); lia.
      * intros Hnot. run_op. f_equal. f_equal.
        fold (playing_count (clipData g)).
        destruct (decide (ClipData.state cd = Playing)); [done|lia].
    + by apply NextStereo_unbound.
    + intros F out Hlen. by apply mix_frames_unbound.
    + intros n F g'' Hrun. by eapply callbacks_unbound.
Qed.

(** C10, at a concrete engine: clip slot 1 of a fresh engine, which no
    [CreateClip] ever returned, is played; it is counted, and it is still
    the same playing slot after three render periods of four frames. *)
Lemma Play_on_unbound_slot_plays_silence_forever_witness :
  ∃ g' cd',
    Play 1 (Scenario.fresh 1 1) = Some (tt, g') ∧
    clipData g' !! 1%nat = Some cd' ∧ ClipData.state cd' = Playing ∧
    (∃ n, GetPlayingClipCount g' = Some (n, g') ∧ 1 ≤ n) ∧
    (∀ g'', callbacks 3 4 g' = Some (tt, g'') → clipData g'' !! 1%nat = Some cd').
Proof.
  destruct (Play_on_unbound_slot_plays_silence_forever
              (Scenario.fresh 1 1) 1%nat ClipData.init ltac:(lia) eq_refl)
    as (g' & cd' & HPlay & Hslot & Hst & _ & Hrest).
  destruct (Hrest eq_refl) as ((n & Hcount & Hn & _) & _ & _ & Hforever).
  exists g', cd'. repeat split; try assumption.
  - by exists n.
  - intros g''. apply Hforever.
Defined.

(** The three render periods of that witness do complete. *)
Example unbound_playing_slot_renders :
  is_Some ((Play 1 ;; callbacks 3 4) (Scenario.fresh 1 1)).
Proof. vm_compute. by eexists. Qed.

(** ** The callback as a sum over clips *)

Lemma play_frames_length (pool : list SampleData.t) (n : nat)
    (c c' : ClipData.t) (v : list (float * float)) :
  play_frames pool n c = Some (v, c') → List.length v = n.
Proof.
  revert c v. induction n as [|n IH]; intros c v Hrun; simpl in Hrun.
  - by injection Hrun as <- _.
  - destruct (ClipData.NextStereo pool c) as [[value c1]|]; [|simpl in *; discriminate].
    simpl in Hrun.
    destruct (play_frames pool n c1) as [[rest c2]|] eqn:Hrest; [|simpl in *; discriminate].
    simpl in Hrun. injection Hrun as <- <-. simpl. f_equal. by eapply IH.
Qed.

Lemma render_clips_lengths (pool : list SampleData.t) (n : nat)
    (clips clips' : list ClipData.t) (vs : list (list (float * float))) :
  render_clips pool n clips = Some (vs, clips') →
  Forall (λ v, List.length v = n) vs.
Proof.
  revert vs clips'.
  induction clips as [|c clips IH]; intros vs clips' Hrun; simpl in Hrun.
  - injection Hrun as <- _. constructor.
  - destruct (decide (ClipData.state c ≠ Playing)).
    + destruct (render_clips pool n clips) as [[vs0 rest]|]; [|simpl in *; discriminate].
      simpl in Hrun. injection Hrun as <- _. by eapply IH.
    + destruct (play_frames pool n c) as [[v c1]|] eqn:Hv; [|simpl in *; discriminate].
      simpl in Hrun.
      destruct (render_clips pool n clips) as [[vs0 rest]|]; [|simpl in *; discriminate].
      simpl in Hrun. injection Hrun as <- _.
      constructor; [by eapply play_frames_length|by eapply IH].
Qed.

(** The frame loop adds, frame by frame, what the clip yields. *)
Lemma mix_frames_interleave (pool : list SampleData.t) (n : nat)
    (fs : list (float * float)) (c : ClipData.t) :
  List.length fs = n →
  mix_frames pool n (interleave fs) c
  = '(v, c') ← play_frames pool n c;
    Some (interleave (zip_with add_frame fs v), c').
Proof.
  revert fs c. induction n as [|n IH]; intros fs c Hlen.
  - by destruct fs.
  - destruct fs as [|[l r] fs]; [discriminate|].
    simpl. destruct (ClipData.NextStereo pool c) as [[value c1]|]; [|done].
    simpl. rewrite IH by (simpl in Hlen; lia).
    by destruct (play_frames pool n c1) as [[rest c2]|].
Qed.

(** The clip loop adds the clips' values one clip after the other. *)
Lemma mix_clips_interleave (pool : list SampleData.t) (n : nat)
    (clips : list ClipData.t) (fs : list (float * float)) :
  List.length fs = n →
  mix_clips pool n clips (interleave fs)
  = '(vs, clips') ← render_clips pool n clips;
    Some (interleave (foldl (zip_with add_frame) fs vs), clips').
Proof.
  revert fs. induction clips as [|c clips IH]; intros fs Hlen; [done|].
  simpl. destruct (decide (ClipData.state c ≠ Playing)).
  - rewrite IH by done.
    by destruct (render_clips pool n clips) as [[vs rest]|].
  - rewrite mix_frames_interleave by done.
    destruct (play_frames pool n c) as [[v c1]|] eqn:Hv; [|done].
    simpl. rewrite IH.
    + by destruct (render_clips pool n clips) as [[vs rest]|].
    + rewrite length_zip_with_l_eq; [done|].
      by rewrite (play_frames_length _ _ _ _ _ Hv).
Qed.

(** Adding lists of frames one after the other sums each channel of each
    frame from left to right. *)
Lemma foldl_add_frames_lookup (vs : list (list (float * float)))
    (fs : list (float * float)) (i : nat) :
  Forall (λ v, List.length v = List.length fs) vs →
  foldl (zip_with add_frame) fs vs !! i
  = (λ f, (sum_from (fst f) (channel fst i vs),
           sum_from (snd f) (channel snd i vs))) <$> fs !! i.
Proof.
  revert fs. induction vs as [|v vs IH]; intros fs Hall.
  - simpl. by destruct (fs !! i) as [[l r]|].
  - inversion Hall as [|? ? Hv Hvs]; subst.
    simpl foldl. rewrite IH.
    + rewrite lookup_zip_with. unfold channel. simpl.
      destruct (fs !! i) as [[l r]|] eqn:Hf; simpl; [|done].
      destruct (v !! i) as [[l' r']|] eqn:Hvi; simpl; [done|].
      apply lookup_ge_None in Hvi. apply lookup_lt_Some in Hf. lia.
    + rewrite length_zip_with_l_eq by done.
      eapply Forall_impl; [exact Hvs|]. simpl. intros; lia.
Qed.

Lemma silence_interleave (n : nat) :
  replicate (n * 2) F32.zero = interleave (replicate n (F32.zero, F32.zero)).
Proof. induction n as [|n IH]; [done|]. simpl. by rewrite IH. Qed.

(** C3, as the code has it.  When a render callback completes, every
    sample of the interleaved output buffer is the plain [float] sum,
    taken in pool order on top of 0.0, of what the clips that were
    [Playing] at the start of the callback yield for that frame and
    channel.  The callback applies no clamp: a sample is inside
    [-1.0, 1.0] exactly when that sum is. *)
Theorem PortAudioCallback_is_the_unclamped_sum (framesPerBuffer : nat)
    (g : GlobalData) :
  PortAudioCallback framesPerBuffer g
  = '(vs, clips) ← render_clips (sampleData g) framesPerBuffer (clipData g);
    Some (mix_down framesPerBuffer vs, set_clipData (λ _, clips) g).
Proof.
  unfold PortAudioCallback.
  rewrite silence_interleave, mix_clips_interleave by apply length_replicate.
  destruct (render_clips (sampleData g) framesPerBuffer (clipData g))
    as [[vs clips]|] eqn:Hvs; [|done].
  simpl. do 2 f_equal. unfold mix_down. f_equal.
  apply list_eq. intros i.
  rewrite foldl_add_frames_lookup.
  - rewrite list_lookup_fmap.
    destruct (decide (i < framesPerBuffer)%nat) as [Hi|Hi].
    + by rewrite lookup_replicate_2, lookup_seq_lt.
    + rewrite lookup_seq_ge by lia.
      by rewrite (proj1 (lookup_replicate_None _ _ _)) by lia.
  - rewrite length_replicate. by eapply render_clips_lengths.
Qed.

(** C3 fails as stated: with two clips playing the same full-scale mono
    sample, one render period of one frame leaves 2.0 in both channels,
    which is outside [-1.0, 1.0]. *)
Lemma two_full_scale_clips_leave_the_unit_range :
  result (Scenario.two_playing ;; PortAudioCallback 1) (Scenario.fresh 1 2)
    = Some [Scenario.two; Scenario.two] ∧
  F32.in_unit_range Scenario.two = false.
Proof. split; vm_compute; reflexivity. Qed.

(** ** One call of [Next] *)

Lemma IncrementSampleIndex_inside (pool : list SampleData.t) (p : nat)
    (sd : SampleData.t) (st : ClipState) (i : Z) (vol pn : float) (l : Z) :
  pool !! p = Some sd →
  0 ≤ i → i + 1 < SampleData.length sd → SampleData.length sd ≤ UINT_MAX →
  ClipData.IncrementSampleIndex pool (ClipData.Build (Some p) st i vol pn l)
  = Some (ClipData.Build (Some p) st (i + 1) vol pn l).
Proof.
  intros Hp Hi Hlt Hmax. unfold ClipData.IncrementSampleIndex. simpl.
  rewrite Hp. simpl. unfold wrap32, UINT_MAX in *.
  rewrite Z.mod_small by lia.
  by rewrite (proj2 (Z.leb_gt _ _)) by lia.
Qed.

Lemma IncrementSampleIndex_complete (pool : list SampleData.t) (p : nat)
    (sd : SampleData.t) (st : ClipState) (i : Z) (vol pn : float) :
  pool !! p = Some sd →
  0 ≤ i → SampleData.length sd = i + 1 → SampleData.length sd ≤ UINT_MAX →
  ClipData.IncrementSampleIndex pool (ClipData.Build (Some p) st i vol pn 0)
  = Some (ClipData.Build (Some p) Complete (i + 1) vol pn 0).
Proof.
  intros Hp Hi Hlen Hmax. unfold ClipData.IncrementSampleIndex. simpl.
  rewrite Hp. simpl. unfold wrap32, UINT_MAX in *.
  rewrite Z.mod_small by lia.
  by rewrite (proj2 (Z.leb_le _ _)) by lia.
Qed.

Lemma IncrementSampleIndex_loop (pool : list SampleData.t) (p : nat)
    (sd : SampleData.t) (st : ClipState) (i : Z) (vol pn : float) (l : Z) :
  pool !! p = Some sd →
  0 ≤ i → SampleData.length sd = i + 1 → SampleData.length sd ≤ UINT_MAX →
  0 < l < UINT_MAX →
  ClipData.IncrementSampleIndex pool (ClipData.Build (Some p) st i vol pn l)
  = Some (ClipData.Build (Some p) st 0 vol pn (l - 1)).
Proof.
  intros Hp Hi Hlen Hmax Hl. unfold ClipData.IncrementSampleIndex. simpl.
  rewrite Hp. simpl. unfold wrap32, UINT_MAX in *.
  rewrite Z.mod_small by lia.
  rewrite (proj2 (Z.leb_le _ _)) by lia.
  rewrite (proj2 (Z.eqb_neq _ _)) by lia.
  rewrite (proj2 (Z.eqb_neq l _)) by lia.
  by rewrite Z.mod_small by lia.
Qed.

(** [IncrementSampleIndex] never touches volume, pan or binding, and is
    defined whenever the bound slot is inside the pool. *)
Lemma IncrementSampleIndex_defined (pool : list SampleData.t) (p : nat)
    (sd : SampleData.t) (c : ClipData.t) :
  ClipData.sample c = Some p → pool !! p = Some sd →
  ∃ c', ClipData.IncrementSampleIndex pool c = Some c' ∧
        ClipData.pan c' = ClipData.pan c ∧
        ClipData.volume c' = ClipData.volume c.
Proof.
  intros Hc Hp. unfold ClipData.IncrementSampleIndex. rewrite Hc, Hp. simpl.
  repeat (destruct (_ <=? _) || destruct (_ =? _)); by eexists.
Qed.

Lemma Next_playing (pool : list SampleData.t) (p : nat) (sd : SampleData.t)
    (buf : list float) (x : float) (c : ClipData.t) :
  ClipData.sample c = Some p → ClipData.state c = Playing →
  pool !! p = Some sd → SampleData.data sd = Some buf →
  buf !! Z.to_nat (ClipData.sampleIndex c) = Some x →
  ClipData.Next pool c
  = c' ← ClipData.IncrementSampleIndex pool c;
    Some (F32.mul x (ClipData.volume c), c').
Proof.
  intros Hc Hst Hp Hbuf Hx. unfold ClipData.Next.
  rewrite Hc, Hst, Hp. simpl. rewrite Hbuf. simpl. by rewrite Hx.
Qed.

Lemma Next_not_playing (pool : list SampleData.t) (c : ClipData.t) :
  ClipData.state c ≠ Playing → ClipData.Next pool c = Some (F32.zero, c).
Proof.
  intros Hst. unfold ClipData.Next.
  destruct (ClipData.sample c), (ClipData.state c); done.
Qed.

(** ** Panning *)

Lemma mul_zero_is_zero (x : float) (s : bool) :
  F32.is_finite x = true → F32.is_zero (F32.mul x (S754_zero s)) = true.
Proof. by destruct x. Qed.

(** C4, as the code has it.  For a [Playing] clip on a stereo sample
    whose cursor has a whole frame ahead of it, the frame the clip yields is
    left = (left_src × volume) × (1 − pan) and
    right = (right_src × volume) × (1 + pan): linear panning with no 0.707
    factor.  Hence at pan = −1 the right value is a zero and at pan = +1
    the left value is a zero, for finite scaled amplitudes. *)
Theorem NextStereo_pans_a_stereo_frame (pool : list SampleData.t) (p : nat)
    (sd : SampleData.t) (buf : list float) (c : ClipData.t)
    (left_src right_src : float) :
  ClipData.sample c = Some p → ClipData.state c = Playing →
  pool !! p = Some sd → SampleData.mono sd = false →
  SampleData.data sd = Some buf →
  0 ≤ ClipData.sampleIndex c →
  ClipData.sampleIndex c + 1 < SampleData.length sd →
  SampleData.length sd ≤ UINT_MAX →
  buf !! Z.to_nat (ClipData.sampleIndex c) = Some left_src →
  buf !! Z.to_nat (ClipData.sampleIndex c + 1) = Some right_src →
  ∃ (left right : float) (c' : ClipData.t),
    ClipData.NextStereo pool c = Some ((left, right), c') ∧
    left = F32.mul (F32.mul left_src (ClipData.volume c))
                   (F32.sub F32.one (ClipData.pan c)) ∧
    right = F32.mul (F32.mul right_src (ClipData.volume c))
                    (F32.add F32.one (ClipData.pan c)) ∧
    (ClipData.pan c = F32.neg F32.one →
     F32.is_finite (F32.mul right_src (ClipData.volume c)) = true →
     F32.is_zero right = true) ∧
    (ClipData.pan c = F32.one →
     F32.is_finite (F32.mul left_src (ClipData.volume c)) = true →
     F32.is_zero left = true).
Proof.
  intros Hc Hst Hp Hmono Hbuf Hi Hlt Hmax Hl Hr.
  destruct c as [smp st i vol pn l]. simpl in *. subst smp st.
  unfold ClipData.NextStereo. simpl. rewrite Hp. simpl. rewrite Hmono.
  rewrite (Next_playing pool p sd buf left_src) by done.
  rewrite (IncrementSampleIndex_inside pool p sd) by done. simpl.
  rewrite (Next_playing pool p sd buf right_src) by done.
  destruct (IncrementSampleIndex_defined pool p sd
              (ClipData.Build (Some p) Playing (i + 1) vol pn l) eq_refl Hp)
    as (c' & -> & _ & _).
  simpl. eexists _, _, c'. split; [reflexivity|].
  split; [done|]. split; [done|]. split.
  - intros -> Hfin. by apply mul_zero_is_zero.
  - intros -> Hfin. by apply mul_zero_is_zero.
Qed.

(** C4, at a concrete engine: the stereo clip of [stereo_hard_left]
    (pan = −1) yields a frame whose left value is 2.0 and whose right
    value is a zero. *)
Lemma NextStereo_pans_a_stereo_frame_witness :
  ∃ (left right : float) (c' : ClipData.t),
    ClipData.NextStereo
      [SampleData.init;
       SampleData.Build (Some [F32.one; Scenario.two; F32.one; Scenario.two]) 4 false]
      (ClipData.Build (Some 1%nat) Playing 0 F32.one (F32.neg F32.one) 0)
    = Some ((left, right), c') ∧
    left = Scenario.two ∧ F32.is_zero right = true.
Proof.
  destruct (NextStereo_pans_a_stereo_frame
              [SampleData.init;
               SampleData.Build (Some [F32.one; Scenario.two; F32.one; Scenario.two]) 4 false]
              1%nat
              (SampleData.Build (Some [F32.one; Scenario.two; F32.one; Scenario.two]) 4 false)
              [F32.one; Scenario.two; F32.one; Scenario.two]
              (ClipData.Build (Some 1%nat) Playing 0 F32.one (F32.neg F32.one) 0)
              F32.one Scenario.two
              eq_refl eq_refl eq_refl eq_refl eq_refl
              ltac:(simpl; lia) ltac:(simpl; lia) ltac:(vm_compute; discriminate)
              eq_refl eq_refl)
    as (left & right & c' & Hframe & Hleft & _ & Hneg & _).
  exists left, right, c'. split; [exact Hframe|]. split.
  - rewrite Hleft. vm_compute. reflexivity.
  - apply Hneg; reflexivity.
Defined.

(** The engine of [stereo_hard_left] is the pool and the clip of the
    witness above. *)
Example stereo_hard_left_engine :
  (λ g, (sampleData g, clipData g !! 1%nat))
    <$> run Scenario.stereo_hard_left (Scenario.fresh 1 1)
  = Some ([SampleData.init;
           SampleData.Build
             (Some [F32.one; Scenario.two; F32.one; Scenario.two]) 4 false],
          Some (ClipData.Build (Some 1%nat) Playing 0 F32.one
                  (F32.neg F32.one) 0)).
Proof. vm_compute. reflexivity. Qed.

(** C4 fails as stated: a playing mono clip of amplitude 1.0 and volume
    1.0 panned hard left (pan = −1) yields 1.0 on the right channel as
    well, not a value near 0, and with pan = 0 both channels get 1.0 times
    the amplitude, not 0.707 times. *)
Lemma mono_clip_ignores_pan :
  result (c <- Scenario.mono_hard_left ;;
          cd <- clip_at c ;;
          pool <- gets sampleData ;;
          lift (ClipData.NextStereo pool cd))
         (Scenario.fresh 1 1)
    = Some ((F32.one, F32.one),
            ClipData.Build (Some 1%nat) Playing 1 F32.one (F32.neg F32.one) 0) ∧
  result (c <- Scenario.one_playing ;;
          cd <- clip_at c ;;
          pool <- gets sampleData ;;
          lift (fst <$> ClipData.NextStereo pool cd))
         (Scenario.fresh 1 1)
    = Some (F32.one, F32.one) ∧
  F32.ltb F32.c0_707 F32.one = true.
Proof. repeat split; vm_compute; reflexivity. Qed.

(** ** Playing a mono sample to its end *)

Lemma play_frames_app (pool : list SampleData.t) (a b : nat) (c : ClipData.t) :
  play_frames pool (a + b) c
  = '(v1, c1) ← play_frames pool a c;
    '(v2, c2) ← play_frames pool b c1;
    Some (v1 ++ v2, c2).
Proof.
  revert c. induction a as [|a IH]; intros c; simpl.
  - by destruct (play_frames pool b c) as [[v2 c2]|].
  - destruct (ClipData.NextStereo pool c) as [[value c1]|]; [|done].
    simpl. rewrite IH.
    destruct (play_frames pool a c1) as [[v1 c2]|]; [|done].
    simpl. by destruct (play_frames pool b c2) as [[v2 c3]|].
Qed.

Section MonoPlayback.
Variable pool : list SampleData.t.
Variable p : nat.
Variable sd : SampleData.t.
Variable buf : list float.
Variables vol pn : float.
Hypothesis Hpool : pool !! p = Some sd.
Hypothesis Hmono : SampleData.mono sd = true.
Hypothesis Hdata : SampleData.data sd = Some buf.
Hypothesis Hlength : SampleData.length sd = Z.of_nat (List.length buf).
Hypothesis Hmax : Z.of_nat (List.length buf) ≤ UINT_MAX.

(** The clip bound to the sample, with the given state, cursor and loop
    counter. *)
Let clip (st : ClipState) (i : Z) (l : Z) : ClipData.t :=
  ClipData.Build (Some p) st i vol pn l.

Lemma mono_NextStereo (c : ClipData.t) :
  ClipData.sample c = Some p →
  ClipData.NextStereo pool c
  = '(value, c') ← ClipData.Next pool c; Some ((value, value), c').
Proof.
  intros Hc. unfold ClipData.NextStereo. rewrite Hc, Hpool. simpl.
  by rewrite Hmono.
Qed.

Lemma mono_step_inside (i : nat) (l : Z) (x : float) :
  buf !! i = Some x → (S i < List.length buf)%nat →
  ClipData.NextStereo pool (clip Playing (Z.of_nat i) l)
  = Some (mono_frame vol x, clip Playing (Z.of_nat (S i)) l).
Proof.
  intros Hx Hlt. rewrite mono_NextStereo by done.
  unfold clip.
  rewrite (Next_playing pool p sd buf x) by (simpl; rewrite ?Nat2Z.id; done). rewrite (IncrementSampleIndex_inside pool p sd) by (done || lia).
  simpl. by replace (Z.of_nat i + 1) with (Z.of_nat (S i)) by lia.
Qed.

Lemma mono_step_complete (i : nat) (x : float) :
  buf !! i = Some x → S i = List.length buf →
  ClipData.NextStereo pool (clip Playing (Z.of_nat i) 0)
  = Some (mono_frame vol x, clip Complete (Z.of_nat (List.length buf)) 0).
Proof.
  intros Hx Hlast. rewrite mono_NextStereo by done.
  unfold clip.
  rewrite (Next_playing pool p sd buf x) by (simpl; rewrite ?Nat2Z.id; done). rewrite (IncrementSampleIndex_complete pool p sd) by (done || lia).
  simpl. by replace (Z.of_nat i + 1) with (Z.of_nat (List.length buf)) by lia.
Qed.

Lemma mono_step_loop (i : nat) (l : Z) (x : float) :
  buf !! i = Some x → S i = List.length buf → 0 < l < UINT_MAX →
  ClipData.NextStereo pool (clip Playing (Z.of_nat i) l)
  = Some (mono_frame vol x, clip Playing 0 (l - 1)).
Proof.
  intros Hx Hlast Hl. rewrite mono_NextStereo by done.
  unfold clip.
  rewrite (Next_playing pool p sd buf x) by (simpl; rewrite ?Nat2Z.id; done). by rewrite (IncrementSampleIndex_loop pool p sd) by (done || lia).
Qed.

(** Frames that stay inside the buffer: the cursor moves, nothing else. *)
Lemma mono_run_inside (m i : nat) (l : Z) :
  (i + m < List.length buf)%nat →
  play_frames pool m (clip Playing (Z.of_nat i) l)
  = Some (map (mono_frame vol) (take m (drop i buf)),
          clip Playing (Z.of_nat (i + m)) l).
Proof.
  revert i. induction m as [|m IH]; intros i Hlt.
  - simpl. by rewrite Nat.add_0_r.
  - destruct (lookup_lt_is_Some_2 buf i ltac:(lia)) as [x Hx].
    simpl play_frames. rewrite (mono_step_inside i l x) by (done || lia).
    simpl. rewrite IH by lia. simpl.
    rewrite (drop_S buf x i Hx). simpl.
    by replace (i + S m)%nat with (S (i + m)) by lia.
Qed.

(** One whole pass that ends in a loop back to the start. *)
Lemma mono_pass_loop (l : Z) :
  (0 < List.length buf)%nat → 0 < l < UINT_MAX →
  play_frames pool (List.length buf) (clip Playing 0 l)
  = Some (map (mono_frame vol) buf, clip Playing 0 (l - 1)).
Proof.
  intros Hpos Hl.
  set (n := pred (List.length buf)).
  assert (Hn : List.length buf = S n) by (unfold n; lia).
  destruct (lookup_lt_is_Some_2 buf n ltac:(lia)) as [x Hx].
  replace (List.length buf) with (n + 1)%nat by lia. rewrite play_frames_app.
  change (clip Playing 0 l) with (clip Playing (Z.of_nat 0) l).
  rewrite mono_run_inside by lia. rewrite drop_0, Nat.add_0_l. simpl.
  rewrite (mono_step_loop n l x) by (done || lia). simpl.
  assert (Hbuf : take n buf ++ [x] = buf)
    by (rewrite <- (take_S_r buf n x Hx); by rewrite take_ge by lia).
  replace (map (mono_frame vol) buf)
    with (map (mono_frame vol) (take n buf ++ [x])) by (by rewrite Hbuf).
  by rewrite map_app.
Qed.

(** The last pass: the clip ends [Complete]. *)
Lemma mono_pass_complete :
  (0 < List.length buf)%nat →
  play_frames pool (List.length buf) (clip Playing 0 0)
  = Some (map (mono_frame vol) buf,
          clip Complete (Z.of_nat (List.length buf)) 0).
Proof.
  intros Hpos.
  set (n := pred (List.length buf)).
  assert (Hn : List.length buf = S n) by (unfold n; lia).
  destruct (lookup_lt_is_Some_2 buf n ltac:(lia)) as [x Hx].
  replace (List.length buf) with (n + 1)%nat at 1 by lia.
  rewrite play_frames_app.
  change (clip Playing 0 0) with (clip Playing (Z.of_nat 0) 0).
  rewrite mono_run_inside by lia. rewrite drop_0, Nat.add_0_l. simpl.
  rewrite (mono_step_complete n x) by (done || lia). simpl.
  assert (Hbuf : take n buf ++ [x] = buf)
    by (rewrite <- (take_S_r buf n x Hx); by rewrite take_ge by lia).
  replace (map (mono_frame vol) buf)
    with (map (mono_frame vol) (take n buf ++ [x])) by (by rewrite Hbuf).
  by rewrite map_app.
Qed.

(** [q] whole passes, each ending in a loop. *)
Lemma mono_loops (q : nat) (l : Z) :
  (0 < List.length buf)%nat → Z.of_nat q ≤ l → l < UINT_MAX →
  play_frames pool (q * List.length buf) (clip Playing 0 l)
  = Some (concat (replicate q (map (mono_frame vol) buf)),
          clip Playing 0 (l - Z.of_nat q)).
Proof.
  intros Hpos. revert l. induction q as [|q IH]; intros l Hq Hl.
  - simpl. by rewrite Z.sub_0_r.
  - simpl Nat.mul. rewrite play_frames_app.
    rewrite mono_pass_loop by (done || lia). simpl.
    rewrite IH by lia. simpl.
    by replace (l - 1 - Z.of_nat q) with (l - Z.of_nat (S q)) by lia.
Qed.

(** A clip that is [Complete] yields silence and stays as it is. *)
Lemma mono_complete_is_silent (n : nat) (i l : Z) :
  play_frames pool n (clip Complete i l)
  = Some (replicate n (F32.zero, F32.zero), clip Complete i l).
Proof.
  induction n as [|n IH]; [done|].
  simpl play_frames. rewrite mono_NextStereo by done.
  rewrite Next_not_playing by done. simpl. by rewrite IH.
Qed.

End MonoPlayback.

(** C5. A clip bound to a mono sample of N > 0 frames that plays from
    cursor 0 with loop counter k (any value but the loop-forever
    sentinel) is still [Playing] after every number of frames below
    (k+1)·N, and after exactly (k+1)·N frames it is [Complete], having
    yielded the whole sample k+1 times (k = 0: once; k = 2: three times).
    From then on every frame it yields is exactly (0.0, 0.0). *)
Theorem mono_clip_completes_after_all_passes (pool : list SampleData.t)
    (p : nat) (sd : SampleData.t) (buf : list float) (c : ClipData.t)
    (k : nat) :
  pool !! p = Some sd →
  SampleData.mono sd = true →
  SampleData.data sd = Some buf →
  SampleData.length sd = Z.of_nat (List.length buf) →
  (0 < List.length buf)%nat →
  Z.of_nat (List.length buf) ≤ UINT_MAX →
  ClipData.sample c = Some p →
  ClipData.state c = Playing →
  ClipData.sampleIndex c = 0 →
  ClipData.loopCount c = Z.of_nat k →
  Z.of_nat k < UINT_MAX →
  (∀ m : nat, (m < (k + 1) * List.length buf)%nat →
     ∃ v c', play_frames pool m c = Some (v, c') ∧
             ClipData.state c' = Playing) ∧
  ∃ c', play_frames pool ((k + 1) * List.length buf) c
        = Some (concat (replicate (k + 1)
                          (map (mono_frame (ClipData.volume c)) buf)), c') ∧
        ClipData.state c' = Complete ∧
        ∀ n : nat, play_frames pool n c'
                   = Some (replicate n (F32.zero, F32.zero), c').
Proof.
  intros Hpool Hmono Hdata Hlength Hpos Hmax Hc Hst Hi Hl Hk.
  destruct c as [smp st i vol pn l]. simpl in *. subst smp st i l.
  split.
  - intros m Hm.
    pose proof (Nat.div_mod_eq m (List.length buf)) as Hdiv.
    pose proof (Nat.mod_upper_bound m (List.length buf) ltac:(lia)) as Hr.
    set (q := (m / List.length buf)%nat) in *.
    set (r := (m mod List.length buf)%nat) in *.
    assert (Hq : (q ≤ k)%nat) by nia.
    replace m with (q * List.length buf + r)%nat by lia.
    rewrite play_frames_app.
    rewrite (mono_loops pool p sd buf vol pn Hpool Hmono Hdata Hlength Hmax)
      by (done || lia).
    simpl.
    rewrite (mono_run_inside pool p sd buf vol pn Hpool Hmono Hdata Hlength Hmax
               r 0) by lia.
    simpl. by eexists _, _.
  - exists (ClipData.Build (Some p) Complete (Z.of_nat (List.length buf)) vol pn 0).
    split; [|split; [done|]].
    + replace ((k + 1) * List.length buf)%nat
        with (k * List.length buf + List.length buf)%nat by lia.
      rewrite play_frames_app.
      rewrite (mono_loops pool p sd buf vol pn Hpool Hmono Hdata Hlength Hmax)
        by (done || lia).
      simpl. rewrite Z.sub_diag.
      rewrite (mono_pass_complete pool p sd buf vol pn
                 Hpool Hmono Hdata Hlength Hmax) by done.
      simpl. do 2 f_equal.
      replace (k + 1)%nat with (S k) by lia.
      rewrite replicate_S_end, concat_app. simpl. by rewrite app_nil_r.
    + intros n.
      apply (mono_complete_is_silent pool p sd vol pn Hpool Hmono).
Qed.

(** C5, at a concrete engine: the three-frame mono clip of [looping 2]
    is [Complete] after exactly nine frames, having played the sample
    three times, and [Playing] after eight. *)
Lemma mono_clip_completes_after_all_passes_witness :
  let pool := [SampleData.init;
               SampleData.Build (Some [F32.one; Scenario.two; F32.one]) 3 true] in
  let c := ClipData.Build (Some 1%nat) Playing 0 F32.one F32.zero 2 in
  (∃ v c', play_frames pool 8 c = Some (v, c') ∧ ClipData.state c' = Playing) ∧
  ∃ c', play_frames pool 9 c
        = Some (concat (replicate 3
                  (map (mono_frame F32.one) [F32.one; Scenario.two; F32.one])), c') ∧
        ClipData.state c' = Complete ∧
        ∀ n : nat, play_frames pool n c'
                   = Some (replicate n (F32.zero, F32.zero), c').
Proof.
  intros pool c.
  destruct (mono_clip_completes_after_all_passes
              pool 1%nat
              (SampleData.Build (Some [F32.one; Scenario.two; F32.one]) 3 true)
              [F32.one; Scenario.two; F32.one] c 2%nat
              eq_refl eq_refl eq_refl eq_refl
              ltac:(simpl; lia) ltac:(vm_compute; discriminate)
              eq_refl eq_refl eq_refl eq_refl ltac:(vm_compute; reflexivity))
    as [Hbefore Hafter].
  split; [apply (Hbefore 8%nat); simpl; lia|exact Hafter].
Defined.

(** The engine of [looping 2] is the pool and the clip of the witness
    above. *)
Example looping_engine :
  (λ g, (sampleData g, clipData g !! 1%nat))
    <$> run (Scenario.looping 2) (Scenario.fresh 1 1)
  = Some ([SampleData.init;
           SampleData.Build (Some [F32.one; Scenario.two; F32.one]) 3 true],
          Some (ClipData.Build (Some 1%nat) Playing 0 F32.one F32.zero 2)).
Proof. vm_compute. reflexivity. Qed.

(** * How the [Juke] generation differs *)

(** [Juke::Play] restarts the clip: the cursor goes back to 0. *)
Lemma Juke_Play_restarts (s : Juke.State) (h : Juke.AudioClip)
    (c : Juke.AudioClipData) :
  Juke.playingClips s !! h = Some (Some c) →
  ∃ s' c', Juke.Play h s = Some (tt, s') ∧
           Juke.playingClips s' !! h = Some (Some c') ∧
           Juke.position c' = 0 ∧ Juke.paused c' = false.
Proof.
  intros Hc.
  assert (Hlt : (h < List.length (Juke.playingClips s))%nat)
    by by eapply lookup_lt_Some.
  run_juke. rewrite Hc. simpl. rewrite Hc. simpl.
  eexists _, _. split; [reflexivity|]. simpl.
  by rewrite list_lookup_insert_eq.
Qed.

(** [Juke::Clip] refuses a sample slot that holds no loaded sample. *)
Lemma Juke_Clip_rejects_unloaded (s : Juke.State) (h : Juke.AudioSample) :
  h ≠ 0%nat → Juke.loadedSamples s !! h = Some None →
  ∃ s', Juke.Clip h s = Some (0%nat, s') ∧
        Juke.playingClips s' = Juke.playingClips s ∧
        Juke.availableClipsIds s' = Juke.availableClipsIds s.
Proof.
  intros Hh Hslot. unfold Juke.Clip. rewrite (nonzero_eqb _ Hh).
  run_juke. rewrite Hslot. simpl. by eexists.
Qed.

(** Comparison of floats is antisymmetric. *)
Lemma SFcompare_antisym (x y : float) :
  SFcompare y x = CompOpp <$> SFcompare x y.
Proof.
  destruct x as [sx|sx| |sx mx ex], y as [sy|sy| |sy my ey]; simpl;
    try done; try (by destruct sx, sy); try (by destruct sx);
    try (by destruct sy).
  destruct sx, sy; try done; simpl; f_equal.
  - rewrite (Z.compare_antisym ey ex).
    destruct (ey ?= ex)%Z; simpl; try done.
    by rewrite (Pos.compare_cont_antisym mx my Eq).
  - rewrite (Z.compare_antisym ey ex).
    destruct (ey ?= ex)%Z; simpl; try done.
    by rewrite (Pos.compare_cont_antisym mx my Eq).
Qed.

(** The clamp of [Juke::paCallback] brings every value that is a number
    into [-1.0, 1.0]; the [Audio] callback has no such step. *)
Lemma Juke_clamp_in_unit_range (x : float) :
  x ≠ S754_nan → F32.in_unit_range (Juke.clamp x) = true.
Proof.
  intros Hnan. unfold Juke.clamp.
  destruct (F32.ltb F32.one x) eqn:Hhi; [done|].
  destruct (F32.ltb x (F32.neg F32.one)) eqn:Hlo; [done|].
  unfold F32.in_unit_range, F32.leb, F32.ltb, SFleb, SFltb in *.
  rewrite (SFcompare_antisym x (F32.neg F32.one)).
  rewrite (SFcompare_antisym F32.one x).
  destruct (SFcompare x (F32.neg F32.one)) as [[]|] eqn:H1; try done;
    destruct (SFcompare F32.one x) as [[]|] eqn:H2; try done.
  all: by destruct x.
Qed.

(** One frame of [Juke::paCallback] leaves both channels inside
    [-1.0, 1.0] whenever the accumulated values are numbers. *)
Lemma Juke_mix_frame_in_unit_range (pan l r : float) (out : float * float) :
  F32.add (fst out) (F32.mul (F32.mul l (F32.sub F32.one pan)) F32.c0_707)
    ≠ S754_nan →
  F32.add (snd out) (F32.mul (F32.mul r (F32.add F32.one pan)) F32.c0_707)
    ≠ S754_nan →
  F32.in_unit_range (fst (Juke.mix_frame pan l r out)) = true ∧
  F32.in_unit_range (snd (Juke.mix_frame pan l r out)) = true.
Proof.
  intros Hl Hr. unfold Juke.mix_frame. simpl.
  split; by apply Juke_clamp_in_unit_range.
Qed.

(** * What [Flush] does *)

(** [Audio::Flush] resets the clips that ran to [Complete] and only then
    puts their handles on the free list. *)
Example Flush_reclaims_complete_clips :
  result (c <- Scenario.one_playing ;;
          PortAudioCallback 2 ;;
          before <- clip_at c ;;
          q1 <- gets availableClipIds ;;
          Flush ;;
          after <- clip_at c ;;
          q2 <- gets availableClipIds ;;
          ret (ClipData.state before, q1, after, q2))
         (Scenario.fresh 1 1)
  = Some (Complete, [], ClipData.init, [1%nat]).
Proof. vm_compute. reflexivity. Qed.

(** [Juke::Flush] after a [Stop] releases the stopped clip object and
    leaves the free list of handles as [Stop] left it. *)
Example Juke_Flush_releases_objects_only :
  result (c <- Scenario.juke_one_playing ;;
          Juke.Stop c ;;
          q1 <- gets Juke.availableClipsIds ;;
          w1 <- gets Juke.clipsToFree ;;
          more <- Juke.Flush ;;
          q2 <- gets Juke.availableClipsIds ;;
          w2 <- gets Juke.clipsToFree ;;
          ret (bool_decide (q1 = q2), List.length w1, List.length w2, more))
         Juke.Initialize
  = Some (true, 1%nat, 0%nat, false).
Proof. vm_compute. reflexivity. Qed.

(** * Further properties of the [Audio] engine *)

(** ** What the render callback may touch *)

Lemma rendered_refl (c : ClipData.t) : rendered c c.
Proof.
  repeat split; try done. intros Hst. by left.
Qed.

Lemma rendered_trans (c1 c2 c3 : ClipData.t) :
  rendered c1 c2 → rendered c2 c3 → rendered c1 c3.
Proof.
  intros (Hs1 & Hv1 & Hp1 & Hn1 & Hst1) (Hs2 & Hv2 & Hp2 & Hn2 & Hst2).
  repeat split; try congruence.
  - intros Hst. rewrite <- (Hn1 Hst). apply Hn2. by rewrite (Hn1 Hst).
  - intros Hst. destruct (Hst1 Hst) as [H2|H2].
    + by apply Hst2.
    + right. rewrite Hn2; [done|]. by rewrite H2.
Qed.

Lemma IncrementSampleIndex_rendered (pool : list SampleData.t)
    (c c' : ClipData.t) :
  ClipData.state c = Playing →
  ClipData.IncrementSampleIndex pool c = Some c' → rendered c c'.
Proof.
  intros Hst. unfold ClipData.IncrementSampleIndex.
  destruct (ClipData.sample c) as [p|] eqn:Hc.
  - destruct (pool !! p) as [sd|]; simpl; [|done].
    repeat (destruct (_ <=? _) || destruct (_ =? _));
      intros [= <-]; (repeat split; simpl; try done; try congruence);
      intros _; by (left + right).
  - intros [= <-]. apply rendered_refl.
Qed.

Lemma Next_rendered (pool : list SampleData.t) (c c' : ClipData.t) (v : float) :
  ClipData.Next pool c = Some (v, c') → rendered c c'.
Proof.
  unfold ClipData.Next.
  destruct (ClipData.sample c) as [p|] eqn:Hc,
    (ClipData.state c) eqn:Hst;
    try (intros [= _ <-]; apply rendered_refl).
  destruct (pool !! p) as [sd|]; simpl; [|done].
  destruct (SampleData.data sd) as [buf|]; simpl; [|done].
  destruct (buf !! _) as [x|]; simpl; [|done].
  destruct (ClipData.IncrementSampleIndex pool c) as [c1|] eqn:Hinc;
    simpl; [|done].
  intros [= _ <-]. by eapply IncrementSampleIndex_rendered.
Qed.

Lemma NextStereo_rendered (pool : list SampleData.t) (c c' : ClipData.t)
    (v : float * float) :
  ClipData.NextStereo pool c = Some (v, c') → rendered c c'.
Proof.
  unfold ClipData.NextStereo.
  destruct (ClipData.sample c) as [p|] eqn:Hc;
    [|intros [= _ <-]; apply rendered_refl].
  destruct (pool !! p) as [sd|]; simpl; [|done].
  destruct (SampleData.mono sd).
  - destruct (ClipData.Next pool c) as [[x c1]|] eqn:H1; simpl; [|done].
    intros [= _ <-]. by eapply Next_rendered.
  - destruct (ClipData.Next pool c) as [[l c1]|] eqn:H1; simpl; [|done].
    destruct (ClipData.Next pool c1) as [[r c2]|] eqn:H2; simpl; [|done].
    intros [= _ <-].
    eapply rendered_trans; by eapply Next_rendered.
Qed.

Lemma mix_frames_rendered (pool : list SampleData.t) (n : nat)
    (out out' : list float) (c c' : ClipData.t) :
  mix_frames pool n out c = Some (out', c') →
  rendered c c' ∧ List.length out' = List.length out.
Proof.
  revert out out' c.
  induction n as [|n IH]; intros out out' c Hmix; simpl in Hmix.
  - injection Hmix as <- <-. split; [apply rendered_refl|done].
  - destruct out as [|l [|r out]]; try discriminate.
    destruct (ClipData.NextStereo pool c) as [[v c1]|] eqn:Hv;
      simpl in Hmix; [|discriminate].
    destruct (mix_frames pool n out c1) as [[rest c2]|] eqn:Hrest;
      simpl in Hmix; [|discriminate].
    injection Hmix as <- <-.
    destruct (IH _ _ _ Hrest) as [Hr Hlen]. split.
    + eapply rendered_trans; [by eapply NextStereo_rendered|done].
    + simpl. by rewrite Hlen.
Qed.

Lemma mix_clips_rendered (pool : list SampleData.t) (n : nat)
    (clips clips' : list ClipData.t) (out out' : list float) :
  mix_clips pool n clips out = Some (out', clips') →
  Forall2 rendered clips clips' ∧ List.length out' = List.length out.
Proof.
  revert clips' out out'.
  induction clips as [|c clips IH]; intros clips' out out' Hmix;
    simpl in Hmix.
  - injection Hmix as <- <-. by split.
  - destruct (decide (ClipData.state c ≠ Playing)) as [Hst|Hst].
    + destruct (mix_clips pool n clips out) as [[o rest]|] eqn:Hrest;
        simpl in Hmix; [|discriminate].
      injection Hmix as <- <-. destruct (IH _ _ _ Hrest) as [Hall Hlen].
      split; [|done]. constructor; [apply rendered_refl|done].
    + destruct (mix_frames pool n out c) as [[out1 c1]|] eqn:Hfr;
        simpl in Hmix; [|discriminate].
      destruct (mix_clips pool n clips out1) as [[o rest]|] eqn:Hrest;
        simpl in Hmix; [|discriminate].
      injection Hmix as <- <-.
      destruct (IH _ _ _ Hrest) as [Hall Hlen].
      destruct (mix_frames_rendered _ _ _ _ _ _ Hfr) as [Hr Hlen1].
      split; [by constructor|congruence].
Qed.

(** X1. A render callback that completes fills a buffer of twice
    [framesPerBuffer] floats and touches nothing but the clip pool: the
    sample pool, both free lists and the error string are as before.  In
    the clip pool no slot is added or removed, no clip changes its sample
    binding, volume or pan, a clip that was not [Playing] is not changed at
    all, and a [Playing] clip is [Playing] or [Complete] afterwards. *)
Theorem PortAudioCallback_frame (framesPerBuffer : nat) (g g' : GlobalData)
    (out : list float) :
  PortAudioCallback framesPerBuffer g = Some (out, g') →
  List.length out = (2 * framesPerBuffer)%nat ∧
  sampleData g' = sampleData g ∧
  availableSampleIds g' = availableSampleIds g ∧
  availableClipIds g' = availableClipIds g ∧
  errorString g' = errorString g ∧
  Forall2 rendered (clipData g) (clipData g').
Proof.
  unfold PortAudioCallback.
  destruct (mix_clips _ _ _ _) as [[o clips]|] eqn:Hmix; simpl; [|done].
  intros [= <- <-].
  destruct (mix_clips_rendered _ _ _ _ _ _ Hmix) as [Hall Hlen].
  rewrite length_replicate in Hlen. simpl.
  repeat split; try done. lia.
Qed.

(** X1, at a concrete engine: one render period of four frames with a
    playing two-frame clip. *)
Lemma PortAudioCallback_frame_witness :
  let g := Scenario.after Scenario.one_playing (Scenario.fresh 1 1) in
  ∃ out g', PortAudioCallback 4 g = Some (out, g') ∧
            List.length out = 8%nat ∧
            sampleData g' = sampleData g ∧
            Forall2 rendered (clipData g) (clipData g').
Proof.
  intros g.
  destruct (PortAudioCallback 4 g) as [[out g']|] eqn:Hcb.
  - destruct (PortAudioCallback_frame 4 g g' out Hcb)
      as (Hlen & Hs & _ & _ & _ & Hall).
    by exists out, g'.
  - exfalso. vm_compute in Hcb. discriminate Hcb.
Defined.

(** ** Rendering never leaves a buffer *)








(** ** [Flush] *)

Lemma GlobalData_eq (g g' : GlobalData) :
  properties g' = properties g →
  availableSampleIds g' = availableSampleIds g →
  availableClipIds g' = availableClipIds g →
  sampleData g' = sampleData g →
  clipData g' = clipData g →
  errorString g' = errorString g →
  g' = g.
Proof. destruct g, g'. simpl. by intros -> -> -> -> -> ->. Qed.

Lemma flush_clips_lookup (clips : list ClipData.t) (i j : nat) :
  flush_clips i clips !! j = flush_clip (i + j) <$> clips !! j.
Proof.
  revert i j. induction clips as [|c clips IH]; intros i j; [done|].
  destruct j as [|j]; simpl.
  - by rewrite Nat.add_0_r.
  - rewrite IH. by replace (S i + j)%nat with (i + S j)%nat by lia.
Qed.



(** The loop of [Flush], from index [length done] on. *)
Lemma Flush_loop_spec (rest done : list ClipData.t) (g : GlobalData) :
  clipData g = done ++ rest →
  ∃ g', Flush_loop (List.length rest) (List.length done) g = Some (tt, g') ∧
        clipData g' = done ++ flush_clips (List.length done) rest ∧
        availableClipIds g'
          = availableClipIds g ++ flushed_ids (List.length done) rest ∧
        sampleData g' = sampleData g ∧
        availableSampleIds g' = availableSampleIds g ∧
        errorString g' = errorString g ∧
        properties g' = properties g.
Proof.
  revert done g. induction rest as [|c rest IH]; intros done g Hg.
  - exists g. simpl. rewrite app_nil_r in Hg. rewrite !app_nil_r.
    by repeat split.
  - assert (Hc : clipData g !! List.length done = Some c).
    { rewrite Hg. by rewrite list_lookup_middle. }
    simpl Flush_loop. unfold bind at 1. unfold clip_at, bind, gets, lift.
    unfold Clip. rewrite Hc. cbv beta iota.
    match goal with
    | |- context [match ?e with Some _ => _ | None => None end] =>
        set (step := e)
    end.
    assert (Hstep : ∃ g1,
      step = Some (tt, g1) ∧
      clipData g1 = (done ++ [flush_clip (List.length done) c]) ++ rest ∧
      availableClipIds g1
        = availableClipIds g ++
            (if decide (List.length done ≠ 0%nat ∧ ClipData.state c = Complete)
             then [List.length done] else []) ∧
      sampleData g1 = sampleData g ∧
      availableSampleIds g1 = availableSampleIds g ∧
      errorString g1 = errorString g ∧
      properties g1 = properties g).
    { unfold flush_clip, step. clear step.
      destruct (decide (ClipData.state c = Complete)) as [Hst|Hst].
      - unfold DestroyClip.
        destruct (Nat.eqb (List.length done) 0) eqn:Hz.
        + apply Nat.eqb_eq in Hz.
          exists g. rewrite !decide_False by (intros [? _]; lia).
          rewrite app_nil_r, <- app_assoc. by repeat split.
        + apply Nat.eqb_neq in Hz.
          unfold bind. rewrite (clip_update_some _ _ _ _ Hc). simpl.
          eexists. split; [reflexivity|]. simpl.
          rewrite !decide_True by done.
          repeat split; try done.
          rewrite Hg, <- app_assoc. simpl.
          rewrite insert_app_r_alt by lia.
          by rewrite Nat.sub_diag.
      - exists g. rewrite !decide_False by (by intros [_ ?]).
        rewrite app_nil_r, <- app_assoc. by repeat split. }
    destruct Hstep as (g1 & -> & Hg1 & Hq1 & Hs1 & Hsi1 & He1 & Hp1).
    destruct (IH (done ++ [flush_clip (List.length done) c]) g1 Hg1)
      as (g' & Hloop & Hclips & Hq & Hs & Hsi & He & Hp).
    rewrite length_app in Hloop, Hclips, Hq. simpl in Hloop, Hclips, Hq.
    rewrite Nat.add_1_r in Hloop, Hclips, Hq.
    exists g'. split; [exact Hloop|].
    split; [by rewrite Hclips, <- app_assoc|].
    split; [|repeat split; congruence].
    rewrite Hq, Hq1, <- app_assoc. simpl.
    by destruct (decide (List.length done ≠ 0%nat ∧ ClipData.state c = Complete)).
Qed.



Lemma flush_clip_idem (h : nat) (c : ClipData.t) :
  flush_clip h (flush_clip h c) = flush_clip h c.
Proof.
  unfold flush_clip.
  destruct (decide (h ≠ 0%nat ∧ ClipData.state c = Complete)) as [Hc|Hc].
  - rewrite decide_False; [done|]. by intros [_ ?].
  - by rewrite decide_False.
Qed.

Lemma flushed_ids_flush_clips (clips : list ClipData.t) (i : nat) :
  flushed_ids i (flush_clips i clips) = [].
Proof.
  revert i. induction clips as [|c clips IH]; intros i; [done|].
  simpl. rewrite IH. rewrite decide_False; [done|].
  unfold flush_clip. intros [Hi Hst].
  destruct (decide (i ≠ 0%nat ∧ ClipData.state c = Complete)) as [|Hno];
    [done|]. by apply Hno.
Qed.

Lemma flush_clips_idem (clips : list ClipData.t) (i : nat) :
  flush_clips i (flush_clips i clips) = flush_clips i clips.
Proof.
  revert i. induction clips as [|c clips IH]; intros i; [done|].
  simpl. by rewrite IH, flush_clip_idem.
Qed.

(** X4. [Flush] is idempotent: a second [Flush] right after the first
    changes nothing, so calling it in a tight loop (as the demo program
    does) releases every handle once. *)
Theorem Flush_twice_is_Flush_once (g : GlobalData) :
  (Flush ;; Flush) g = Flush g.
Proof.
  unfold bind.
  destruct (Flush_loop_spec (clipData g) [] g eq_refl)
    as (g1 & Hloop1 & Hclips1 & Hq1 & Hs1 & Hsi1 & He1 & Hp1).
  destruct (Flush_loop_spec (clipData g1) [] g1 eq_refl)
    as (g2 & Hloop2 & Hclips2 & Hq2 & Hs2 & Hsi2 & He2 & Hp2).
  simpl in *.
  assert (HF1 : Flush g = Some (tt, g1)) by exact Hloop1.
  assert (HF2 : Flush g1 = Some (tt, g2)) by exact Hloop2.
  rewrite HF1, HF2. do 2 f_equal.
  apply GlobalData_eq; try congruence.
  - by rewrite Hq2, Hclips1, flushed_ids_flush_clips, app_nil_r.
  - by rewrite Hclips2, Hclips1, flush_clips_idem.
Qed.

(** ** Which control operations keep the engine safe to render *)

Lemma clip_update_inv (f : ClipData.t → ClipData.t) (g g' : GlobalData)
    (h : Clip) :
  clip_update h f g = Some (tt, g') →
  ∃ cd, clipData g !! h = Some cd ∧
        g' = set_clipData (λ pool, <[h := f cd]> pool) g.
Proof.
  run_op. destruct (clipData g !! h) as [cd|]; simpl; [|done].
  intros [= <-]. by exists cd.
Qed.

Lemma render_safe_insert (g : GlobalData) (h : nat) (c : ClipData.t) :
  render_safe g → clip_safe (sampleData g) c →
  render_safe (set_clipData (λ pool, <[h := c]> pool) g).
Proof.
  unfold render_safe. simpl. intros Hall Hc.
  destruct (decide (h < List.length (clipData g))%nat) as [Hlt|Hge].
  - by apply Forall_insert.
  - by rewrite list_insert_ge by lia.
Qed.

Lemma guarded_update_safe (f : ClipData.t → ClipData.t) (g g' : GlobalData)
    (h : Clip) :
  (∀ cd, clip_safe (sampleData g) cd → clip_safe (sampleData g) (f cd)) →
  render_safe g →
  (if Nat.eqb h 0 then ret tt else clip_update h f) g = Some (tt, g') →
  render_safe g'.
Proof.
  intros Hf Hsafe. destruct (Nat.eqb h 0).
  - by intros [= <-].
  - intros (cd & Hcd & ->)%clip_update_inv.
    apply render_safe_insert; [done|]. apply Hf.
    unfold render_safe in Hsafe. rewrite Forall_lookup in Hsafe.
    by eapply Hsafe.
Qed.

Lemma clip_safe_not_playing (pool : list SampleData.t) (c : ClipData.t) :
  ClipData.state c ≠ Playing → clip_safe pool c.
Proof. by intros Hst Hplaying. Qed.

(** X5. Pausing a clip, destroying a clip, setting a volume, a pan or a
    loop count, creating a clip and flushing never make the engine unsafe
    to render: if every [Playing] clip had its cursor inside its buffer
    before the call, the same holds after it. *)
Theorem control_calls_keep_render_safety (g : GlobalData) :
  render_safe g →
  (∀ h g', Pause h g = Some (tt, g') → render_safe g') ∧
  (∀ h g', DestroyClip h g = Some (tt, g') → render_safe g') ∧
  (∀ h v g', SetClipVolume h v g = Some (tt, g') → render_safe g') ∧
  (∀ h v g', SetClipPan h v g = Some (tt, g') → render_safe g') ∧
  (∀ h n g', SetClipLoop h n g = Some (tt, g') → render_safe g') ∧
  (∀ s h g', CreateClip s g = Some (h, g') → render_safe g') ∧
  (∀ g', Flush g = Some (tt, g') → render_safe g').
Proof.
  intros Hsafe.
  split; [|split; [|split; [|split; [|split; [|split]]]]].
  - intros h g'. apply guarded_update_safe; [|done].
    intros cd _. by apply clip_safe_not_playing.
  - intros h g'. unfold DestroyClip. destruct (Nat.eqb h 0).
    + by intros [= <-].
    + unfold bind.
      destruct (clip_update h ClipData.Reset g) as [[[] g1]|] eqn:Hup; [|done].
      apply clip_update_inv in Hup as (cd & Hcd & ->).
      intros [= <-]. apply (render_safe_insert g h ClipData.init Hsafe).
      by apply clip_safe_not_playing.
  - intros h v g'. apply guarded_update_safe; [|done].
    intros cd Hcd Hst. exact (Hcd Hst).
  - intros h v g'. apply guarded_update_safe; [|done].
    intros cd Hcd Hst. exact (Hcd Hst).
  - intros h n g'. apply guarded_update_safe; [|done].
    intros cd Hcd Hst. exact (Hcd Hst).
  - intros s h g'. unfold CreateClip. destruct (Nat.eqb s 0).
    { by intros [= _ <-]. }
    run_op. destruct (decide (availableClipIds g = [])).
    { by intros [= _ <-]. }
    destruct (availableClipIds g) as [|clipId q]; [done|]. simpl.
    destruct (clipData g !! clipId) as [cd|] eqn:Hcd; simpl; [|done].
    destruct (sampleData g !! s) as [sd|]; simpl; [|done].
    rewrite list_lookup_insert_eq by (by eapply lookup_lt_Some). simpl.
    intros [= _ <-].
    unfold render_safe in *. simpl.
    apply Forall_insert; [by apply Forall_insert|].
    by apply clip_safe_not_playing.
  - intros g' HF.
    destruct (Flush_loop_spec (clipData g) [] g eq_refl)
      as (g1 & HF1 & Hclips & _ & Hs & _).
    simpl in *. unfold Flush, bind, gets in HF. rewrite HF in HF1.
    injection HF1 as <-.
    unfold render_safe in *. rewrite Hs, Hclips.
    rewrite Forall_lookup in Hsafe. apply Forall_lookup.
    intros h c' Hc'. rewrite flush_clips_lookup in Hc'. simpl in Hc'.
    destruct (clipData g !! h) as [c|] eqn:Hc; [|done].
    simpl in Hc'. injection Hc' as <-. unfold flush_clip.
    destruct (decide _); [by apply clip_safe_not_playing|by eapply Hsafe].
Qed.

Lemma one_playing_is_render_safe :
  render_safe (Scenario.after Scenario.one_playing (Scenario.fresh 1 1)).
Proof.
  unfold render_safe.
  change (sampleData (Scenario.after Scenario.one_playing (Scenario.fresh 1 1)))
    with [SampleData.init; SampleData.Build (Some [F32.one; F32.one]) 2 true].
  change (clipData (Scenario.after Scenario.one_playing (Scenario.fresh 1 1)))
    with [ClipData.init;
          ClipData.Build (Some 1%nat) Playing 0 F32.one F32.zero 0].
  repeat constructor.
  - intros Hst. discriminate Hst.
  - intros _ p [= <-].
    exists (SampleData.Build (Some [F32.one; F32.one]) 2 true),
      [F32.one; F32.one].
    repeat split; try done; simpl; unfold UINT_MAX; lia.
Qed.

(** X5, at a concrete engine: the playing clip is paused, and the engine
    is flushed. *)
Lemma control_calls_keep_render_safety_witness :
  let g := Scenario.after Scenario.one_playing (Scenario.fresh 1 1) in
  render_safe g ∧
  (∃ g', Pause 1 g = Some (tt, g') ∧ render_safe g') ∧
  (∃ g', Flush g = Some (tt, g') ∧ render_safe g').
Proof.
  intros g.
  pose proof one_playing_is_render_safe as Hsafe. fold g in Hsafe.
  destruct (control_calls_keep_render_safety g Hsafe)
    as (HPause & _ & _ & _ & _ & _ & HFlush).
  split; [exact Hsafe|]. split.
  - destruct (Pause 1 g) as [[[] g']|] eqn:Hp.
    + exists g'. split; [done|]. by apply (HPause 1%nat).
    + exfalso. vm_compute in Hp. discriminate Hp.
  - destruct (Flush g) as [[[] g']|] eqn:Hf.
    + exists g'. split; [done|]. by apply HFlush.
    + exfalso. vm_compute in Hf. discriminate Hf.
Defined.

Lemma clip_safe_pool_insert (pool : list SampleData.t) (s : nat)
    (sd : SampleData.t) (c : ClipData.t) :
  clip_safe pool c →
  (ClipData.state c = Playing → ClipData.sample c ≠ Some s) →
  clip_safe (<[s := sd]> pool) c.
Proof.
  intros Hc Hother Hst p Hp.
  destruct (Hc Hst p Hp) as (sd0 & buf & Hslot & Hrest).
  exists sd0, buf. split; [|done].
  rewrite list_lookup_insert_ne; [done|].
  intros ->. by apply (Hother Hst).
Qed.

Lemma render_safe_pool_insert (g : GlobalData) (s : nat) (sd : SampleData.t) :
  render_safe g →
  (∀ c, c ∈ clipData g → ClipData.state c = Playing →
        ClipData.sample c ≠ Some s) →
  render_safe (set_sampleData (λ pool, <[s := sd]> pool) g).
Proof.
  unfold render_safe. simpl. intros Hall Hother.
  rewrite Forall_forall in Hall. apply Forall_forall. intros c Hc.
  apply clip_safe_pool_insert; [by apply Hall|by apply Hother].
Qed.

(** X6. [Play] and [DestroySample] keep the engine safe to render
    under the conditions the code leaves to its caller.  [Play] does when
    the slot is unbound, or bound to a sample slot that owns a buffer of
    [length] floats with the clip's cursor inside it.  [DestroySample]
    does when no [Playing] clip is bound to the sample being destroyed. *)
Theorem Play_and_DestroySample_keep_render_safety (g : GlobalData) :
  render_safe g →
  (∀ (h : Clip) (cd : ClipData.t) (g' : GlobalData),
     clipData g !! h = Some cd →
     (∀ p, ClipData.sample cd = Some p →
        ∃ sd buf, sampleData g !! p = Some sd ∧
                  SampleData.data sd = Some buf ∧
                  SampleData.length sd = Z.of_nat (List.length buf) ∧
                  SampleData.length sd ≤ UINT_MAX ∧
                  0 ≤ ClipData.sampleIndex cd < SampleData.length sd) →
     Play h g = Some (tt, g') → render_safe g') ∧
  (∀ (s : Sample) (g' : GlobalData),
     (∀ c, c ∈ clipData g → ClipData.state c = Playing →
           ClipData.sample c ≠ Some s) →
     DestroySample s g = Some (tt, g') → render_safe g').
Proof.
  intros Hsafe. split.
  - intros h cd g' Hcd Hbound. unfold Play. destruct (Nat.eqb h 0).
    + by intros [= <-].
    + rewrite (clip_update_some _ _ _ _ Hcd). intros [= <-].
      apply render_safe_insert; [done|].
      intros _ p Hp. destruct (Hbound p Hp) as (sd & buf & H1 & H2 & H3 & H4 & H5).
      by exists sd, buf.
  - intros s g' Hother. unfold DestroySample. destruct (Nat.eqb s 0).
    + by intros [= <-].
    + run_op. destruct (sampleData g !! s) as [sd|]; simpl; [|done].
      intros [= <-].
      by apply (render_safe_pool_insert g s (SampleData.Reset sd)).
Qed.

(** X6, at a concrete engine: a clip is made on a loaded sample and
    played, and a sample with no clip on it is destroyed. *)
Lemma Play_and_DestroySample_keep_render_safety_witness :
  let g := Scenario.after (Scenario.one_playing ;; Pause 1) (Scenario.fresh 1 1) in
  ∃ g' g'', Play 1 g = Some (tt, g') ∧ render_safe g' ∧
            DestroySample 1 g = Some (tt, g'') ∧ render_safe g''.
Proof.
  intros g.
  assert (Hsafe : render_safe g).
  { unfold render_safe.
    change (clipData g)
      with [ClipData.init;
            ClipData.Build (Some 1%nat) Paused 0 F32.one F32.zero 0].
    repeat constructor; intros Hst; discriminate Hst. }
  destruct (Play_and_DestroySample_keep_render_safety g Hsafe) as [HPlay HDestroy].
  destruct (Play 1 g) as [[[] g']|] eqn:Hp;
    [|exfalso; vm_compute in Hp; discriminate Hp].
  destruct (DestroySample 1 g) as [[[] g'']|] eqn:Hd;
    [|exfalso; vm_compute in Hd; discriminate Hd].
  exists g', g''. split; [done|]. split; [|split; [done|]].
  - apply (HPlay 1%nat (ClipData.Build (Some 1%nat) Paused 0 F32.one F32.zero 0) g');
      [reflexivity| |exact Hp].
    intros p [= <-].
    exists (SampleData.Build (Some [F32.one; F32.one]) 2 true),
      [F32.one; F32.one].
    repeat split; try done; simpl; unfold UINT_MAX; lia.
  - apply (HDestroy 1%nat g''); [|exact Hd].
    intros c Hc Hst.
    change (clipData g)
      with [ClipData.init;
            ClipData.Build (Some 1%nat) Paused 0 F32.one F32.zero 0] in Hc.
    apply elem_of_cons in Hc as [->|Hc]; [discriminate Hst|].
    apply elem_of_cons in Hc as [->|Hc]; [discriminate Hst|].
    by apply elem_of_nil in Hc.
Defined.

(** ** [Initialize] *)


(** ** Allocation of clip handles *)

Lemma CreateClip_some (g : GlobalData) (s : Sample) (sd : SampleData.t)
    (clipId : Clip) (q : list Clip) (cd : ClipData.t) :
  s ≠ 0%nat → sampleData g !! s = Some sd →
  availableClipIds g = clipId :: q → clipData g !! clipId = Some cd →
  ∃ g', CreateClip s g = Some (clipId, g') ∧
        availableClipIds g' = q ∧
        clipData g'
          = <[clipId := ClipData.set_sample (Some s) ClipData.init]> (clipData g) ∧
        sampleData g' = sampleData g ∧
        availableSampleIds g' = availableSampleIds g.
Proof.
  intros Hs Hsd Hq Hcd.
  assert (Hlt : (clipId < List.length (clipData g))%nat)
    by by eapply lookup_lt_Some.
  unfold CreateClip. rewrite (nonzero_eqb _ Hs).
  run_op. rewrite Hq. simpl. rewrite Hq. simpl.
  rewrite Hcd. simpl. rewrite Hsd. simpl.
  rewrite list_lookup_insert_eq by done. simpl.
  eexists. split; [reflexivity|]. simpl.
  rewrite Hq, list_insert_insert_eq. by repeat split.
Qed.

Lemma CreateClip_exhausted (g : GlobalData) (s : Sample) :
  s ≠ 0%nat → availableClipIds g = [] →
  CreateClip s g
  = Some (0%nat, set_errorString "Error creating clip: No available clip IDs." g).
Proof.
  intros Hs Hq. unfold CreateClip. rewrite (nonzero_eqb _ Hs).
  run_op. by rewrite Hq.
Qed.

Lemma DestroyClip_some (g : GlobalData) (h : Clip) (cd : ClipData.t) :
  h ≠ 0%nat → clipData g !! h = Some cd →
  DestroyClip h g
  = Some (tt, set_availableClipIds (λ q, q ++ [h])
                (set_clipData (λ pool, <[h := ClipData.init]> pool) g)).
Proof.
  intros Hh Hcd. unfold DestroyClip. rewrite (nonzero_eqb _ Hh).
  unfold bind. by rewrite (clip_update_some _ _ _ _ Hcd).
Qed.




(** X9. Releasing one slot permits exactly one more allocation.  When no
    clip id is left, destroying one allocated clip and then creating
    clips twice returns the destroyed handle the first time and 0 the
    second time. *)
Theorem DestroyClip_permits_one_more_clip (g : GlobalData) (h : Clip)
    (cd : ClipData.t) (s : Sample) (sd : SampleData.t) :
  availableClipIds g = [] →
  h ≠ 0%nat → clipData g !! h = Some cd →
  s ≠ 0%nat → sampleData g !! s = Some sd →
  result (DestroyClip h ;;
          c1 <- CreateClip s ;;
          c2 <- CreateClip s ;;
          ret (c1, c2)) g
  = Some (h, 0%nat).
Proof.
  intros Hq Hh Hcd Hs Hsd.
  assert (Hlt : (h < List.length (clipData g))%nat) by by eapply lookup_lt_Some.
  unfold result, bind at 1. rewrite (DestroyClip_some g h cd Hh Hcd).
  set (g1 := set_availableClipIds _ _).
  destruct (CreateClip_some g1 s sd h [] ClipData.init Hs Hsd)
    as (g2 & Hcreate & Hq2 & _).
  { unfold g1. simpl. by rewrite Hq. }
  { unfold g1. simpl. by rewrite list_lookup_insert_eq. }
  unfold bind at 1. rewrite Hcreate.
  unfold bind at 1. by rewrite (CreateClip_exhausted g2 s Hs Hq2).
Qed.

(** X9, at a concrete engine: the only clip is destroyed. *)
Lemma DestroyClip_permits_one_more_clip_witness :
  result (DestroyClip 1 ;;
          c1 <- CreateClip 1 ;;
          c2 <- CreateClip 1 ;;
          ret (c1, c2))
         (Scenario.after Scenario.one_playing (Scenario.fresh 1 1))
  = Some (1%nat, 0%nat).
Proof.
  apply (DestroyClip_permits_one_more_clip
           (Scenario.after Scenario.one_playing (Scenario.fresh 1 1)) 1%nat
           (ClipData.Build (Some 1%nat) Playing 0 F32.one F32.zero 0) 1%nat
           (SampleData.Build (Some [F32.one; F32.one]) 2 true));
    (lia || (vm_compute; reflexivity)).
Defined.

(** X10. [DestroyClip] does not detect a double release.  Destroying the
    same allocated clip twice queues its handle twice, so that two later
    [CreateClip] calls both return that handle: two owners then share one
    clip slot. *)
Theorem DestroyClip_twice_hands_the_handle_out_twice (g : GlobalData)
    (h : Clip) (cd : ClipData.t) (s : Sample) (sd : SampleData.t) :
  availableClipIds g = [] →
  h ≠ 0%nat → clipData g !! h = Some cd →
  s ≠ 0%nat → sampleData g !! s = Some sd →
  result (DestroyClip h ;;
          DestroyClip h ;;
          q <- gets availableClipIds ;;
          c1 <- CreateClip s ;;
          c2 <- CreateClip s ;;
          ret (q, c1, c2)) g
  = Some ([h; h], h, h).
Proof.
  intros Hq Hh Hcd Hs Hsd.
  assert (Hlt : (h < List.length (clipData g))%nat) by by eapply lookup_lt_Some.
  unfold result, bind at 1. rewrite (DestroyClip_some g h cd Hh Hcd).
  set (g1 := set_availableClipIds _ _).
  assert (Hcd1 : clipData g1 !! h = Some ClipData.init).
  { unfold g1. simpl. by rewrite list_lookup_insert_eq. }
  unfold bind at 1. rewrite (DestroyClip_some g1 h _ Hh Hcd1).
  set (g2 := set_availableClipIds _ (set_clipData _ g1)).
  assert (Hq2 : availableClipIds g2 = [h; h]).
  { unfold g2, g1. simpl. by rewrite Hq. }
  assert (Hcd2 : clipData g2 !! h = Some ClipData.init).
  { unfold g2. simpl. rewrite list_lookup_insert_eq; [done|].
    unfold g1. simpl. by rewrite length_insert. }
  unfold bind at 1. unfold gets at 1. rewrite Hq2.
  destruct (CreateClip_some g2 s sd h [h] ClipData.init Hs Hsd Hq2 Hcd2)
    as (g3 & Hcreate & Hq3 & Hclips3 & Hs3 & _).
  unfold bind at 1. rewrite Hcreate.
  destruct (CreateClip_some g3 s sd h [] (ClipData.set_sample (Some s) ClipData.init)
              Hs ltac:(by rewrite Hs3) Hq3)
    as (g4 & Hcreate4 & _).
  { rewrite Hclips3, list_lookup_insert_eq; [done|].
    unfold g2, g1. simpl. by rewrite !length_insert. }
  unfold bind at 1. by rewrite Hcreate4.
Qed.

(** X10, at a concrete engine: the only clip is destroyed twice. *)
Lemma DestroyClip_twice_hands_the_handle_out_twice_witness :
  result (DestroyClip 1 ;;
          DestroyClip 1 ;;
          q <- gets availableClipIds ;;
          c1 <- CreateClip 1 ;;
          c2 <- CreateClip 1 ;;
          ret (q, c1, c2))
         (Scenario.after Scenario.one_playing (Scenario.fresh 1 1))
  = Some ([1; 1]%nat, 1%nat, 1%nat).
Proof.
  apply (DestroyClip_twice_hands_the_handle_out_twice
           (Scenario.after Scenario.one_playing (Scenario.fresh 1 1)) 1%nat
           (ClipData.Build (Some 1%nat) Playing 0 F32.one F32.zero 0) 1%nat
           (SampleData.Build (Some [F32.one; F32.one]) 2 true));
    (lia || (vm_compute; reflexivity)).
Defined.

(** ** Clip parameters *)

(** X11. Volume and pan are stored as given and read back unchanged,
    whatever the value (nothing is clamped to the documented ranges), and
    setting one of them does not change the other. *)
Theorem volume_and_pan_round_trip (g : GlobalData) (h : Clip)
    (cd : ClipData.t) (v : float) :
  h ≠ 0%nat → clipData g !! h = Some cd →
  result (SetClipVolume h v ;; GetClipVolume h) g = Some v ∧
  result (SetClipPan h v ;; GetClipPan h) g = Some v ∧
  result (SetClipVolume h v ;; GetClipPan h) g = Some (ClipData.pan cd) ∧
  result (SetClipPan h v ;; GetClipVolume h) g = Some (ClipData.volume cd).
Proof.
  intros Hh Hcd.
  assert (Hlt : (h < List.length (clipData g))%nat) by by eapply lookup_lt_Some.
  unfold result, SetClipVolume, SetClipPan, GetClipVolume, GetClipPan.
  rewrite (nonzero_eqb _ Hh). unfold bind at 1 3 5 7.
  rewrite !(clip_update_some _ _ _ _ Hcd).
  run_op. by rewrite !list_lookup_insert_eq.
Qed.

(** X11, at a concrete engine, with a volume of 2.0. *)
Lemma volume_and_pan_round_trip_witness :
  let g := Scenario.after Scenario.one_playing (Scenario.fresh 1 1) in
  result (SetClipVolume 1 Scenario.two ;; GetClipVolume 1) g = Some Scenario.two ∧
  result (SetClipPan 1 Scenario.two ;; GetClipPan 1) g = Some Scenario.two.
Proof.
  intros g.
  destruct (volume_and_pan_round_trip g 1%nat
              (ClipData.Build (Some 1%nat) Playing 0 F32.one F32.zero 0)
              Scenario.two ltac:(lia) ltac:(vm_compute; reflexivity))
    as (Hv & Hp & _).
  by split.
Defined.

Lemma to_int32_wrap32 (n : Z) :
  - 2 ^ 31 ≤ n < 2 ^ 31 → to_int32 (wrap32 n) = n.
Proof.
  intros Hn. unfold to_int32, wrap32.
  destruct (decide (0 ≤ n)) as [Hpos|Hneg].
  - rewrite Z.mod_small by lia. by rewrite (proj2 (Z.ltb_lt _ _)) by lia.
  - replace (n mod 2 ^ 32) with (n + 2 ^ 32).
    + rewrite (proj2 (Z.ltb_ge _ _)) by lia. lia.
    + apply (Z.mod_unique n (2 ^ 32) (-1) (n + 2 ^ 32)); lia.
Qed.

(** X12. A loop count is read back as it was set for every value of an
    [int]; in the slot it is kept as an [unsigned int], so that −1, the
    loop-forever value, is stored as 4294967295. *)
Theorem loop_count_round_trip (g : GlobalData) (h : Clip) (cd : ClipData.t)
    (count : Z) :
  h ≠ 0%nat → clipData g !! h = Some cd →
  - 2 ^ 31 ≤ count < 2 ^ 31 →
  result (SetClipLoop h count ;; GetClipLoop h) g = Some count ∧
  result (SetClipLoop h (-1) ;; cd' <- clip_at h ;; ret (ClipData.loopCount cd')) g
  = Some UINT_MAX.
Proof.
  intros Hh Hcd Hcount.
  assert (Hlt : (h < List.length (clipData g))%nat) by by eapply lookup_lt_Some.
  unfold result, SetClipLoop, GetClipLoop.
  rewrite (nonzero_eqb _ Hh). unfold bind at 1 3.
  rewrite !(clip_update_some _ _ _ _ Hcd).
  run_op. rewrite !list_lookup_insert_eq by done. simpl.
  by rewrite to_int32_wrap32.
Qed.

(** X12, at a concrete engine, for the count −7. *)
Lemma loop_count_round_trip_witness :
  let g := Scenario.after Scenario.one_playing (Scenario.fresh 1 1) in
  result (SetClipLoop 1 (-7) ;; GetClipLoop 1) g = Some (-7).
Proof.
  intros g.
  apply (loop_count_round_trip g 1%nat
           (ClipData.Build (Some 1%nat) Playing 0 F32.one F32.zero 0) (-7));
    [lia|vm_compute; reflexivity|lia].
Defined.

(** ** Counting and silence *)

(** X13. [GetPlayingClipCount] never changes the engine, and it follows
    the control calls exactly: [Play] on a clip that was not [Playing]
    raises it by one, [Pause] or [DestroyClip] on a [Playing] clip lowers
    it by one, and each of them leaves it alone otherwise. *)
Theorem GetPlayingClipCount_follows_Play_and_Pause (g : GlobalData)
    (h : Clip) (cd : ClipData.t) :
  h ≠ 0%nat → clipData g !! h = Some cd →
  let n := playing_count (clipData g) in
  let playing := if decide (ClipData.state cd = Playing) then 1 else 0 in
  GetPlayingClipCount g = Some (n, g) ∧
  result (Play h ;; GetPlayingClipCount) g = Some (n - playing + 1) ∧
  result (Pause h ;; GetPlayingClipCount) g = Some (n - playing) ∧
  result (DestroyClip h ;; GetPlayingClipCount) g = Some (n - playing).
Proof.
  intros Hh Hcd n playing.
  split; [done|].
  unfold result, Play, Pause. rewrite (nonzero_eqb _ Hh).
  unfold bind at 1 2 3.
  rewrite !(clip_update_some _ _ _ _ Hcd), (DestroyClip_some g h cd Hh Hcd).
  unfold GetPlayingClipCount, bind, gets, ret. simpl.
  fold (playing_count (<[h:=ClipData.set_state Playing cd]> (clipData g))).
  fold (playing_count (<[h:=ClipData.set_state Paused cd]> (clipData g))).
  fold (playing_count (<[h:=ClipData.init]> (clipData g))).
  rewrite !(playing_count_insert _ _ _ _ Hcd). simpl.
  repeat split; f_equal; unfold n, playing; lia.
Qed.

(** X13, at a concrete engine with one playing clip. *)
Lemma GetPlayingClipCount_follows_Play_and_Pause_witness :
  let g := Scenario.after Scenario.one_playing (Scenario.fresh 1 1) in
  GetPlayingClipCount g = Some (1, g) ∧
  result (Pause 1 ;; GetPlayingClipCount) g = Some 0.
Proof.
  intros g.
  destruct (GetPlayingClipCount_follows_Play_and_Pause g 1%nat
              (ClipData.Build (Some 1%nat) Playing 0 F32.one F32.zero 0)
              ltac:(lia) ltac:(vm_compute; reflexivity))
    as (Hcount & _ & Hpause & _).
  split; [exact Hcount|exact Hpause].
Defined.





(** ** Looping for ever *)

Lemma IncrementSampleIndex_forever (pool : list SampleData.t) (p : nat)
    (sd : SampleData.t) (st : ClipState) (i : Z) (vol pn : float) :
  pool !! p = Some sd →
  0 ≤ i → SampleData.length sd = i + 1 → SampleData.length sd ≤ UINT_MAX →
  ClipData.IncrementSampleIndex pool (ClipData.Build (Some p) st i vol pn UINT_MAX)
  = Some (ClipData.Build (Some p) st 0 vol pn UINT_MAX).
Proof.
  intros Hp Hi Hlen Hmax. unfold ClipData.IncrementSampleIndex. simpl.
  rewrite Hp. simpl. unfold wrap32.
  rewrite Z.mod_small by (unfold UINT_MAX in *; lia).
  by rewrite (proj2 (Z.leb_le _ _)) by lia.
Qed.

(** X15. A clip on a mono sample of N > 0 frames whose loop counter is
    4294967295 (what [SetClipLoop] stores for −1) never completes: after
    any number m of rendered frames it is still [Playing], its loop
    counter is unchanged and its cursor is m mod N. *)
Theorem mono_clip_loops_for_ever (pool : list SampleData.t) (p : nat)
    (sd : SampleData.t) (buf : list float) (c : ClipData.t) (m : nat) :
  pool !! p = Some sd →
  SampleData.mono sd = true →
  SampleData.data sd = Some buf →
  SampleData.length sd = Z.of_nat (List.length buf) →
  (0 < List.length buf)%nat →
  Z.of_nat (List.length buf) ≤ UINT_MAX →
  ClipData.sample c = Some p →
  ClipData.state c = Playing →
  ClipData.sampleIndex c = 0 →
  ClipData.loopCount c = UINT_MAX →
  ∃ v c', play_frames pool m c = Some (v, c') ∧
          List.length v = m ∧
          ClipData.state c' = Playing ∧
          ClipData.loopCount c' = UINT_MAX ∧
          ClipData.sampleIndex c' = Z.of_nat (m mod List.length buf).
Proof.
  intros Hpool Hmono Hdata Hlength Hpos Hmax Hc Hst Hi Hl.
  destruct c as [smp st i vol pn l]. simpl in *. subst smp st i l.
  assert (Hinv : ∃ v r,
    play_frames pool m (ClipData.Build (Some p) Playing 0 vol pn UINT_MAX)
    = Some (v, ClipData.Build (Some p) Playing (Z.of_nat r) vol pn UINT_MAX) ∧
    (r < List.length buf)%nat ∧ ∃ q, m = (q * List.length buf + r)%nat).
  { induction m as [|m IH].
    - exists [], 0%nat. repeat split; [lia|by exists 0%nat].
    - destruct IH as (v & r & Hrun & Hr & q & Hm).
      replace (S m) with (m + 1)%nat by lia.
      rewrite play_frames_app, Hrun. simpl.
      destruct (lookup_lt_is_Some_2 buf r Hr) as [x Hx].
      destruct (decide (S r < List.length buf)%nat) as [Hin|Hlast].
      + rewrite (mono_step_inside pool p sd buf vol pn
                   Hpool Hmono Hdata Hlength Hmax r UINT_MAX x Hx Hin).
        simpl. eexists _, (S r). repeat split; [done|].
        exists q. lia.
      + rewrite (mono_NextStereo pool p sd Hpool Hmono) by done.
        rewrite (Next_playing pool p sd buf x)
          by (simpl; rewrite ?Nat2Z.id; done).
        rewrite (IncrementSampleIndex_forever pool p sd) by (done || lia).
        simpl. eexists _, 0%nat. repeat split; [lia|].
        exists (S q). lia. }
  destruct Hinv as (v & r & Hrun & Hr & q & Hm).
  eexists v, _. split; [exact Hrun|].
  split; [by eapply play_frames_length|].
  repeat split. simpl. f_equal.
  apply (Nat.mod_unique m (List.length buf) q r); lia.
Qed.

(** X15, at a concrete engine: the three-frame clip with loop count −1
    after 1000 frames. *)
Lemma mono_clip_loops_for_ever_witness :
  let pool := [SampleData.init;
               SampleData.Build (Some [F32.one; Scenario.two; F32.one]) 3 true] in
  let c := ClipData.Build (Some 1%nat) Playing 0 F32.one F32.zero UINT_MAX in
  ∃ v c', play_frames pool 1000 c = Some (v, c') ∧
          List.length v = 1000%nat ∧
          ClipData.state c' = Playing ∧
          ClipData.loopCount c' = UINT_MAX ∧
          ClipData.sampleIndex c' = 1.
Proof.
  intros pool c.
  apply (mono_clip_loops_for_ever
           pool 1%nat
           (SampleData.Build (Some [F32.one; Scenario.two; F32.one]) 3 true)
           [F32.one; Scenario.two; F32.one] c 1000%nat);
    try reflexivity; simpl; unfold UINT_MAX; lia.
Defined.

(** The engine of [looping (-1)] is the pool and the clip of that witness. *)
Example looping_for_ever_engine :
  (λ g, (sampleData g, clipData g !! 1%nat))
    <$> run (Scenario.looping (-1)) (Scenario.fresh 1 1)
  = Some ([SampleData.init;
           SampleData.Build (Some [F32.one; Scenario.two; F32.one]) 3 true],
          Some (ClipData.Build (Some 1%nat) Playing 0 F32.one F32.zero UINT_MAX)).
Proof. vm_compute. reflexivity. Qed.

(** ** Samples *)

(** X16. [CreateSample] rejects a request without touching the pools or
    consuming a handle: when no sample id is left, when the path does not
    exist or is not a regular file, when the decoder reports an error,
    when the channel count is neither 1 nor 2, or when the sample rate is
    not 44100 Hz, it returns 0 and only the error string changes. *)
Theorem CreateSample_rejects_without_allocating (g : GlobalData)
    (filename : string) (file : SndFile) :
  availableSampleIds g = [] ∨ file_exists file = false ∨
  is_regular_file file = false ∨ file_error file = true ∨
  (channels file ≠ 1 ∧ channels file ≠ 2) ∨ samplerate file ≠ 44100 →
  ∃ g', CreateSample filename file g = Some (0%nat, g') ∧ same_pools g g'.
Proof.
  intros Hbad. unfold CreateSample, bind at 1, gets at 1.
  destruct (decide (availableSampleIds g = [])) as [Hq|Hq].
  { eexists. split; [reflexivity|]. apply same_pools_set_error. }
  destruct (file_exists file) eqn:Hex; simpl;
    [|eexists; split; [reflexivity|]; apply same_pools_set_error].
  destruct (is_regular_file file) eqn:Hreg; simpl;
    [|eexists; split; [reflexivity|]; apply same_pools_set_error].
  destruct (file_error file) eqn:Herr; simpl;
    [eexists; split; [reflexivity|]; apply same_pools_set_error|].
  destruct (negb (channels file =? 1) && negb (channels file =? 2)) eqn:Hch;
    [eexists; split; [reflexivity|]; apply same_pools_set_error|].
  destruct (negb (samplerate file =? 44100)) eqn:Hrate;
    [eexists; split; [reflexivity|]; apply same_pools_set_error|].
  exfalso.
  destruct Hbad as [?|[?|[?|[?|[[H1 H2]|Hr]]]]]; try done.
  - apply andb_false_iff in Hch as [Hch|Hch];
      apply negb_false_iff, Z.eqb_eq in Hch; done.
  - by apply negb_false_iff, Z.eqb_eq in Hrate.
Qed.

(** X16, at a concrete engine: a 48000 Hz file is refused. *)
Lemma CreateSample_rejects_without_allocating_witness :
  ∃ g', CreateSample "a.wav"
          {| file_exists := true; is_regular_file := true; file_error := false;
             strError := ""; channels := 2; samplerate := 48000;
             frames := 1; pcm := [F32.one; F32.one] |}
          (Scenario.fresh 1 1)
        = Some (0%nat, g') ∧
        same_pools (Scenario.fresh 1 1) g'.
Proof.
  apply CreateSample_rejects_without_allocating.
  do 5 right. simpl. lia.
Defined.

(** X17. [CreateSample] on a readable mono or stereo 44100 Hz file takes
    the handle at the front of the sample free list and stores the decoded
    buffer in that slot, with length frames × channels and the mono flag
    set exactly for one channel; the clip pool is not touched.
    [DestroySample] on that handle then empties the slot again and puts
    the handle at the back of the free list: handles are recycled in FIFO
    order. *)
Theorem CreateSample_stores_and_DestroySample_recycles (g : GlobalData)
    (filename : string) (file : SndFile) (id : Sample) (q : list Sample)
    (sd0 : SampleData.t) :
  availableSampleIds g = id :: q →
  id ≠ 0%nat → sampleData g !! id = Some sd0 →
  file_exists file = true → is_regular_file file = true →
  file_error file = false →
  channels file = 1 ∨ channels file = 2 →
  samplerate file = 44100 →
  ∃ g1 g2,
    CreateSample filename file g = Some (id, g1) ∧
    sampleData g1
      = <[id := SampleData.Build (Some (pcm file))
                  (wrap32 (frames file * channels file))
                  (channels file =? 1)]> (sampleData g) ∧
    availableSampleIds g1 = q ∧
    clipData g1 = clipData g ∧ availableClipIds g1 = availableClipIds g ∧
    DestroySample id g1 = Some (tt, g2) ∧
    sampleData g2 = <[id := SampleData.init]> (sampleData g) ∧
    availableSampleIds g2 = q ++ [id] ∧
    clipData g2 = clipData g.
Proof.
  intros Hq Hid Hsd Hex Hreg Herr Hch Hrate.
  assert (Hlt : (id < List.length (sampleData g))%nat) by by eapply lookup_lt_Some.
  assert (Hchb : negb (channels file =? 1) && negb (channels file =? 2) = false).
  { destruct Hch as [-> | ->]; reflexivity. }
  set (new := SampleData.Build (Some (pcm file))
                (wrap32 (frames file * channels file)) (channels file =? 1)).
  set (g1 := set_sampleData (λ pool, <[id := new]> pool)
               (set_sampleData (λ pool, <[id := SampleData.Reset sd0]> pool)
                  (set_availableSampleIds (drop 1) g))).
  assert (Hcreate : CreateSample filename file g = Some (id, g1)).
  { unfold CreateSample, bind at 1, gets at 1.
    rewrite decide_False by (by rewrite Hq).
    rewrite Hex, Hreg, Herr, Hchb, Hrate. simpl.
    run_op. rewrite Hq. simpl. rewrite Hsd. simpl.
    by rewrite list_lookup_insert_eq by done. }
  assert (Hnew : sampleData g1 !! id = Some new).
  { unfold g1. simpl. by rewrite list_lookup_insert_eq by (by rewrite length_insert). }
  exists g1. eexists. split; [exact Hcreate|].
  rewrite (DestroySample_nonzero g1 id new Hid Hnew). simpl.
  rewrite !list_insert_insert_eq, Hq.
  do 4 (split; [done|]). split; [reflexivity|]. simpl.
  rewrite !list_insert_insert_eq, Hq. by repeat split.
Qed.

(** X17, at a concrete engine and a two-frame mono file. *)
Lemma CreateSample_stores_and_DestroySample_recycles_witness :
  ∃ g1 g2,
    CreateSample "a.wav" (Scenario.wav 1 [F32.one; F32.one]) (Scenario.fresh 2 1)
      = Some (1%nat, g1) ∧
    sampleData g1 !! 1%nat
      = Some (SampleData.Build (Some [F32.one; F32.one]) 2 true) ∧
    availableSampleIds g1 = [2%nat] ∧
    DestroySample 1 g1 = Some (tt, g2) ∧
    sampleData g2 = sampleData (Scenario.fresh 2 1) ∧
    availableSampleIds g2 = [2; 1]%nat.
Proof.
  destruct (CreateSample_stores_and_DestroySample_recycles
              (Scenario.fresh 2 1) "a.wav" (Scenario.wav 1 [F32.one; F32.one])
              1%nat [2%nat] SampleData.init
              eq_refl ltac:(lia) eq_refl eq_refl eq_refl eq_refl
              ltac:(by left) eq_refl)
    as (g1 & g2 & Hc & Hs1 & Hq1 & _ & _ & Hd & Hs2 & Hq2 & _).
  exists g1, g2. repeat split; try done.
  by rewrite Hs1.
Defined.

(** ** [PlaySample] *)

(** X18. [PlaySample] on a nonzero in-range sample handle is [CreateClip]
    followed by [Play]: it returns the handle at the front of the clip
    free list and leaves that clip bound to the sample, [Playing], at
    cursor 0 with default volume, pan and loop count.  When no clip id is
    left it returns 0, changes no pool or free list, and prefixes the
    error of [CreateClip] with its own. *)
Theorem PlaySample_creates_and_plays (g : GlobalData) (s : Sample)
    (sd : SampleData.t) :
  s ≠ 0%nat → sampleData g !! s = Some sd →
  (∀ (clipId : Clip) (q : list Clip) (cd : ClipData.t),
     clipId ≠ 0%nat →
     availableClipIds g = clipId :: q → clipData g !! clipId = Some cd →
     ∃ g', PlaySample s g = Some (clipId, g') ∧
           clipData g' !! clipId
             = Some (ClipData.Build (Some s) Playing 0 F32.one F32.zero 0) ∧
           availableClipIds g' = q ∧
           sampleData g' = sampleData g) ∧
  (availableClipIds g = [] →
   ∃ g', PlaySample s g = Some (0%nat, g') ∧ same_pools g g' ∧
         errorString g'
         = "Error playing sample: Error creating clip: No available clip IDs."%string).
Proof.
  intros Hs Hsd. split.
  - intros clipId q cd Hid Hq Hcd.
    assert (Hlt : (clipId < List.length (clipData g))%nat)
      by by eapply lookup_lt_Some.
    destruct (CreateClip_some g s sd clipId q cd Hs Hsd Hq Hcd)
      as (g1 & Hcreate & Hq1 & Hclips1 & Hs1 & _).
    unfold PlaySample. rewrite (nonzero_eqb _ Hs).
    unfold bind at 1. rewrite Hcreate. rewrite (nonzero_eqb _ Hid).
    assert (Hcd1 : clipData g1 !! clipId
                   = Some (ClipData.set_sample (Some s) ClipData.init))
      by (by rewrite Hclips1, list_lookup_insert_eq).
    unfold bind at 1, Play. rewrite (nonzero_eqb _ Hid).
    rewrite (clip_update_some _ _ _ _ Hcd1). simpl.
    eexists. split; [reflexivity|]. simpl.
    rewrite list_lookup_insert_eq
      by (by rewrite Hclips1, length_insert).
    by repeat split.
  - intros Hq. unfold PlaySample. rewrite (nonzero_eqb _ Hs).
    unfold bind at 1. rewrite (CreateClip_exhausted g s Hs Hq). simpl.
    eexists. split; [reflexivity|]. by repeat split.
Qed.

(** X18, at a concrete engine with one loaded sample and a free clip. *)
Lemma PlaySample_creates_and_plays_witness :
  let g := Scenario.after
             (CreateSample "a.wav" (Scenario.wav 1 [F32.one; F32.one]))
             (Scenario.fresh 1 1) in
  ∃ g', PlaySample 1 g = Some (1%nat, g') ∧
        clipData g' !! 1%nat
          = Some (ClipData.Build (Some 1%nat) Playing 0 F32.one F32.zero 0) ∧
        availableClipIds g' = [] ∧
        sampleData g' = sampleData g.
Proof.
  intros g.
  apply (proj1 (PlaySample_creates_and_plays g 1%nat
                  (SampleData.Build (Some [F32.one; F32.one]) 2 true)
                  ltac:(lia) ltac:(vm_compute; reflexivity))
           1%nat [] ClipData.init);
    [lia|vm_compute; reflexivity|vm_compute; reflexivity].
Defined.

(** * Further properties of the [Juke] player *)

(** ** The callback clamps *)

Lemma clamp_is_clamped (x : float) : Juke.clamped (Juke.clamp x).
Proof.
  assert (Hx : x = S754_nan ∨ x ≠ S754_nan) by (destruct x; by (left + right)).
  destruct Hx as [->|Hx].
  - by left.
  - right. by apply Juke_clamp_in_unit_range.
Qed.

Lemma frame_loop_clamped (samples : list (option Juke.AudioSampleData))
    (n : nat) (write out : list float) (c c' : Juke.AudioClipData) :
  Juke.frame_loop samples n write c = Some (out, c') →
  Forall Juke.clamped write →
  Forall Juke.clamped out ∧ List.length out = List.length write.
Proof.
  revert write out c c'.
  induction n as [|n IH]; intros write out c c' Hrun Hall; simpl in Hrun.
  - by injection Hrun as <- _.
  - destruct write as [|lf [|rt write]]; try discriminate.
    destruct (Juke.sample_of samples c) as [sd|]; simpl in Hrun; [|done].
    match type of Hrun with
    | (?e ≫= _) = _ => destruct e as [[[l r] c1]|]; simpl in Hrun; [|done]
    end.
    destruct (Juke.frame_loop samples n write c1) as [[rest c2]|] eqn:Hrest;
      simpl in Hrun; [|done].
    injection Hrun as <- _.
    inversion Hall as [|? ? _ Hall1]; subst.
    inversion Hall1 as [|? ? _ Hall2]; subst.
    destruct (IH _ _ _ _ Hrest Hall2) as [Hout Hlen].
    split.
    + unfold Juke.mix_frame. cbn [fst snd].
      constructor; [apply clamp_is_clamped|].
      constructor; [apply clamp_is_clamped|exact Hout].
    + simpl. by rewrite Hlen.
Qed.

Lemma clip_loop_clamped (samples : list (option Juke.AudioSampleData))
    (n : nat) (clips clips' : list (option Juke.AudioClipData))
    (out out' : list float) :
  Juke.clip_loop samples n clips out = Some (out', clips') →
  Forall Juke.clamped out →
  Forall Juke.clamped out' ∧ List.length out' = List.length out.
Proof.
  revert clips' out out'.
  induction clips as [|slot clips IH]; intros clips' out out' Hrun Hall;
    simpl in Hrun.
  - by injection Hrun as <- _.
  - assert (Hskip :
      (Juke.clip_loop samples n clips out
         ≫= λ '(o, rest), Some (o, slot :: rest)) = Some (out', clips') →
      Forall Juke.clamped out' ∧ List.length out' = List.length out).
    { destruct (Juke.clip_loop samples n clips out) as [[o rest]|] eqn:Hrest;
        simpl; [|done].
      intros [= <- _]. by eapply IH. }
    destruct slot as [clip|]; [|by apply Hskip].
    destruct (Juke.paused clip); [by apply Hskip|].
    destruct (Juke.frame_loop samples n out clip) as [[out1 clip1]|] eqn:Hfr;
      simpl in Hrun; [|done].
    destruct (Juke.clip_loop samples n clips out1) as [[out2 rest]|] eqn:Hrest;
      simpl in Hrun; [|done].
    injection Hrun as <- _.
    destruct (frame_loop_clamped _ _ _ _ _ _ Hfr Hall) as [Hall1 Hlen1].
    destruct (IH _ _ _ Hrest Hall1) as [Hall2 Hlen2].
    split; [done|congruence].
Qed.

(** X19. When [Juke]'s callback completes, the buffer holds twice
    [framesPerBuffer] floats and every one of them is a number inside
    [-1.0, 1.0] or NaN, however many clips overlap and whatever their
    volume and pan: each accumulation is clamped. *)
Theorem Juke_paCallback_output_is_clamped (framesPerBuffer : nat)
    (s s' : Juke.State) (out : list float) :
  Juke.paCallback framesPerBuffer s = Some (out, s') →
  List.length out = (2 * framesPerBuffer)%nat ∧
  Forall Juke.clamped out.
Proof.
  unfold Juke.paCallback.
  destruct (Juke.clip_loop _ _ _ _) as [[o clips]|] eqn:Hrun; simpl; [|done].
  intros [= <- _].
  destruct (clip_loop_clamped _ _ _ _ _ _ Hrun) as [Hall Hlen].
  - apply Forall_replicate. by right.
  - rewrite length_replicate in Hlen. split; [lia|done].
Qed.

(** X19, at a concrete player: two clips at full volume play the same
    full-scale sample; one frame is rendered and holds 1.0 twice. *)
Lemma Juke_paCallback_output_is_clamped_witness :
  let s := Scenario.after
             (smp <- Juke.Load "loop1.wav" (Scenario.wav 2 (replicate 8 F32.one)) ;;
              c1 <- Juke.Clip smp ;; c2 <- Juke.Clip smp ;;
              Juke.Play c1 ;; Juke.Play c2)
             Juke.Initialize in
  ∃ out s', Juke.paCallback 1 s = Some (out, s') ∧
            out = [F32.one; F32.one] ∧
            Forall Juke.clamped out.
Proof.
  intros s.
  destruct (Juke.paCallback 1 s) as [[out s']|] eqn:Hcb.
  - exists out, s'. split; [done|].
    split; [|by apply (Juke_paCallback_output_is_clamped 1 s s' out Hcb)].
    assert (Hout : fst <$> Juke.paCallback 1 s = Some [F32.one; F32.one])
      by (vm_compute; reflexivity).
    rewrite Hcb in Hout. by injection Hout.
  - exfalso.
    assert (Hsome : is_Some (fst <$> Juke.paCallback 1 s))
      by (vm_compute; by eexists).
    rewrite Hcb in Hsome. by destruct Hsome.
Defined.

(** ** [Next] reads one float too many *)

Lemma Juke_Next_inside (samples : list (option Juke.AudioSampleData))
    (sd : Juke.AudioSampleData) (c : Juke.AudioClipData) (i : nat) (x : float) :
  samples !! Juke.sample c = Some (Some sd) →
  Juke.size sd = Z.of_nat (List.length (Juke.data sd)) →
  Juke.size sd ≤ UINT_MAX →
  Juke.position c = Z.of_nat i →
  Juke.data sd !! i = Some x →
  Juke.Next samples c
  = Some (F32.mul x (Juke.volume c), Juke.set_position (Z.of_nat (S i)) c).
Proof.
  intros Hsd Hsize Hmax Hpos Hx.
  assert (Hlt : (i < List.length (Juke.data sd))%nat) by by eapply lookup_lt_Some.
  unfold Juke.Next, Juke.sample_of. rewrite Hsd. simpl.
  rewrite (proj2 (Z.ltb_ge _ _)) by lia.
  unfold Juke.read. rewrite Hpos, Nat2Z.id, Hx. simpl.
  unfold wrap32, UINT_MAX in *. rewrite Z.mod_small by lia.
  by replace (Z.of_nat i + 1) with (Z.of_nat (S i)) by lia.
Qed.

Lemma Juke_next_run_inside (samples : list (option Juke.AudioSampleData))
    (sd : Juke.AudioSampleData) (m i : nat) (c : Juke.AudioClipData) :
  samples !! Juke.sample c = Some (Some sd) →
  Juke.size sd = Z.of_nat (List.length (Juke.data sd)) →
  Juke.size sd ≤ UINT_MAX →
  Juke.position c = Z.of_nat i →
  (i + m ≤ List.length (Juke.data sd))%nat →
  Juke.next_run samples m c
  = Some (map (λ x, F32.mul x (Juke.volume c)) (take m (drop i (Juke.data sd))),
          Juke.set_position (Z.of_nat (i + m)) c).
Proof.
  intros Hsd Hsize Hmax. revert i c Hsd.
  induction m as [|m IH]; intros i c Hsd Hpos Hle.
  - simpl. rewrite Nat.add_0_r, <- Hpos. by destruct c.
  - destruct (lookup_lt_is_Some_2 (Juke.data sd) i ltac:(lia)) as [x Hx].
    simpl Juke.next_run.
    rewrite (Juke_Next_inside samples sd c i x) by done. simpl.
    rewrite (IH (S i)) by (done || simpl; lia). simpl.
    rewrite (drop_S _ x i Hx). simpl.
    by replace (i + S m)%nat with (S (i + m)) by lia.
Qed.

(** X20. The end test of [Juke]'s [Next] is off by one.  A clip on a
    sample of n floats that starts at position 0 yields the n floats,
    scaled by its volume, in n calls, and is then at position n without
    being marked complete; the following call reads [data[n]], one float
    past the buffer, whether the clip loops or not. *)
Theorem Juke_Next_reads_past_the_end
    (samples : list (option Juke.AudioSampleData))
    (sd : Juke.AudioSampleData) (c : Juke.AudioClipData) :
  samples !! Juke.sample c = Some (Some sd) →
  Juke.size sd = Z.of_nat (List.length (Juke.data sd)) →
  Juke.size sd ≤ UINT_MAX →
  Juke.position c = 0 →
  ∃ c', Juke.next_run samples (List.length (Juke.data sd)) c
        = Some (map (λ x, F32.mul x (Juke.volume c)) (Juke.data sd), c') ∧
        Juke.position c' = Juke.size sd ∧
        Juke.complete c' = Juke.complete c ∧
        Juke.Next samples c' = None.
Proof.
  intros Hsd Hsize Hmax Hpos.
  exists (Juke.set_position (Z.of_nat (List.length (Juke.data sd))) c).
  split; [|split; [done|split; [done|]]].
  - rewrite (Juke_next_run_inside samples sd (List.length (Juke.data sd)) 0 c)
      by (done || lia).
    by rewrite drop_0, take_ge.
  - unfold Juke.Next, Juke.sample_of. simpl. rewrite Hsd. simpl.
    rewrite (proj2 (Z.ltb_ge _ _)) by lia.
    unfold Juke.read. simpl. rewrite Nat2Z.id.
    by rewrite (lookup_ge_None_2 (Juke.data sd)).
Qed.

(** X20, at a concrete sample of three floats. *)
Lemma Juke_Next_reads_past_the_end_witness :
  let sd := Juke.Build_AudioSampleData [F32.one; Scenario.two; F32.one] 3 true in
  let c := Juke.Build_AudioClipData 1 0 false F32.one F32.zero false false in
  ∃ c', Juke.next_run [None; Some sd] 3 c
        = Some ([F32.one; Scenario.two; F32.one], c') ∧
        Juke.position c' = 3 ∧ Juke.complete c' = false ∧
        Juke.Next [None; Some sd] c' = None.
Proof.
  intros sd c.
  destruct (Juke_Next_reads_past_the_end [None; Some sd] sd c
              eq_refl eq_refl ltac:(vm_compute; discriminate) eq_refl)
    as (c' & Hrun & Hpos & Hcomplete & Hnext).
  exists c'. split; [exact Hrun|done].
Defined.

(** ** [Stop] and the in-flight counter *)

(** X21. [Juke::Stop] is idempotent: stopping a clip a second time, or
    stopping a slot that holds no clip, changes nothing; the handle is
    queued once. *)
Theorem Juke_Stop_is_idempotent (s : Juke.State) (h : Juke.AudioClip) :
  (Juke.Stop h ;; Juke.Stop h) s = Juke.Stop h s.
Proof.
  run_juke.
  destruct (Juke.playingClips s !! h) as [[c|]|] eqn:Hc; simpl.
  - rewrite Hc. simpl.
    by rewrite list_lookup_insert_eq by (by eapply lookup_lt_Some).
  - by rewrite Hc.
  - done.
Qed.

Lemma Juke_Play_some (s : Juke.State) (h : Juke.AudioClip)
    (c : Juke.AudioClipData) :
  Juke.playingClips s !! h = Some (Some c) →
  Juke.Play h s
  = Some (tt, Juke.set_clipsInFlight (λ n, wrap32 (n + 1))
                (Juke.set_playingClips
                   (λ v, <[h := Some (Juke.Build_AudioClipData
                                        (Juke.sample c) 0 (Juke.loop c)
                                        (Juke.volume c) (Juke.pan c)
                                        false false)]> v) s)).
Proof. intros Hc. run_juke. rewrite Hc. simpl. by rewrite Hc. Qed.

Lemma Juke_Stop_some (s : Juke.State) (h : Juke.AudioClip)
    (c : Juke.AudioClipData) :
  Juke.playingClips s !! h = Some (Some c) →
  Juke.Stop h s
  = Some (tt, Juke.set_clipsInFlight (λ n, wrap32 (n - 1))
                (Juke.set_availableClipsIds (λ q, q ++ [h])
                   (Juke.set_playingClips (λ v, <[h := None]> v)
                      (Juke.set_clipsToFree (λ w, w ++ [c]) s)))).
Proof. intros Hc. run_juke. rewrite Hc. simpl. by rewrite Hc. Qed.

(** X22. [Juke]'s in-flight counter is not the number of playing clips.
    [Play] raises it on every call, also for a clip that already plays,
    and [Stop] lowers it once per clip, also for a clip that was never
    played: after [Play], [Play], [Stop] on one clip the counter is one
    higher than before although the clip is gone, and [Stop] on a clip
    that was never played takes a counter of 0 to 4294967295. *)
Theorem Juke_in_flight_counter_drifts (s : Juke.State) (h : Juke.AudioClip)
    (c : Juke.AudioClipData) :
  Juke.playingClips s !! h = Some (Some c) →
  0 ≤ Juke.clipsInFlight s < UINT_MAX - 1 →
  result (Juke.Play h ;; Juke.Play h ;; Juke.Stop h ;;
          playing <- Juke.IsPlaying h ;;
          n <- gets Juke.clipsInFlight ;;
          ret (playing, n)) s
  = Some (false, Juke.clipsInFlight s + 1) ∧
  result (Juke.Stop h ;; gets Juke.clipsInFlight) s
  = Some (wrap32 (Juke.clipsInFlight s - 1)) ∧
  wrap32 (0 - 1) = UINT_MAX.
Proof.
  intros Hc Hn.
  assert (Hlt : (h < List.length (Juke.playingClips s))%nat)
    by by eapply lookup_lt_Some.
  split; [|split; [|done]].
  - unfold result, bind at 1. rewrite (Juke_Play_some s h c Hc).
    set (s1 := Juke.set_clipsInFlight _ _).
    assert (Hc1 : Juke.playingClips s1 !! h
                  = Some (Some (Juke.Build_AudioClipData
                                  (Juke.sample c) 0 (Juke.loop c)
                                  (Juke.volume c) (Juke.pan c) false false))).
    { unfold s1. simpl. by rewrite list_lookup_insert_eq. }
    unfold bind at 1. rewrite (Juke_Play_some s1 h _ Hc1). simpl.
    set (s2 := Juke.set_clipsInFlight _ _).
    assert (Hc2 : Juke.playingClips s2 !! h
                  = Some (Some (Juke.Build_AudioClipData
                                  (Juke.sample c) 0 (Juke.loop c)
                                  (Juke.volume c) (Juke.pan c) false false))).
    { unfold s2, s1. simpl.
      by rewrite list_lookup_insert_eq by (by rewrite length_insert). }
    unfold bind at 1. rewrite (Juke_Stop_some s2 h _ Hc2).
    set (s3 := Juke.set_clipsInFlight _ _).
    assert (Hc3 : Juke.playingClips s3 !! h = Some None).
    { unfold s3, s2, s1. simpl.
      by rewrite list_lookup_insert_eq by (by rewrite !length_insert). }
    unfold Juke.IsPlaying, Juke.clip_slot, bind, gets, lift, ret.
    rewrite Hc3. unfold s3, s2, s1. simpl. do 3 f_equal.
    unfold wrap32, UINT_MAX in *.
    rewrite (Z.mod_small (Juke.clipsInFlight s + 1)) by lia.
    rewrite (Z.mod_small (Juke.clipsInFlight s + 1 + 1)) by lia.
    rewrite Z.mod_small by lia. lia.
  - unfold result, bind. by rewrite (Juke_Stop_some s h c Hc).
Qed.

(** X22, at a concrete player with one playing clip. *)
Lemma Juke_in_flight_counter_drifts_witness :
  let s := Scenario.after Scenario.juke_one_playing Juke.Initialize in
  Juke.clipsInFlight s = 1 ∧
  result (Juke.Play 1 ;; Juke.Play 1 ;; Juke.Stop 1 ;;
          playing <- Juke.IsPlaying 1 ;;
          n <- gets Juke.clipsInFlight ;;
          ret (playing, n)) s
  = Some (false, 2).
Proof.
  intros s.
  assert (Hn : Juke.clipsInFlight s = 1) by (vm_compute; reflexivity).
  split; [exact Hn|].
  replace 2 with (Juke.clipsInFlight s + 1) by (rewrite Hn; reflexivity).
  apply (Juke_in_flight_counter_drifts s 1%nat
           (Juke.Build_AudioClipData 1 0 false F32.one F32.zero false false)).
  - vm_compute. reflexivity.
  - rewrite Hn. unfold UINT_MAX. lia.
Defined.

(** ** [Load] *)

(** X23. [Juke::Load] refuses a missing path, a non-file, a decoder error,
    a channel count other than 1 or 2 and a rate other than 44100 Hz by
    returning 0 with the containers untouched.  For a file it accepts it
    takes the handle at the front of the free list and stores the buffer
    with the stereo flag set, also when the file has one channel; it does
    not check that a handle is left, and taking the front of the empty
    queue is undefined. *)
Theorem Juke_Load_checks_the_file_but_not_the_queue (s : Juke.State)
    (path : string) (file : SndFile) :
  (file_exists file = false ∨ is_regular_file file = false ∨
   file_error file = true ∨ (channels file ≠ 1 ∧ channels file ≠ 2) ∨
   samplerate file ≠ 44100 →
   ∃ s', Juke.Load path file s = Some (0%nat, s') ∧
         Juke.loadedSamples s' = Juke.loadedSamples s ∧
         Juke.availableSampleIds s' = Juke.availableSampleIds s ∧
         Juke.playingClips s' = Juke.playingClips s ∧
         Juke.availableClipsIds s' = Juke.availableClipsIds s) ∧
  (file_exists file = true → is_regular_file file = true →
   file_error file = false → channels file = 1 ∨ channels file = 2 →
   samplerate file = 44100 →
   (Juke.availableSampleIds s = [] → Juke.Load path file s = None) ∧
   (∀ (id : Juke.AudioSample) (q : list Juke.AudioSample),
      Juke.availableSampleIds s = id :: q →
      (id < List.length (Juke.loadedSamples s))%nat →
      ∃ s', Juke.Load path file s = Some (id, s') ∧
            Juke.loadedSamples s'
              = <[id := Some (Juke.Build_AudioSampleData (pcm file)
                                (wrap32 (frames file * channels file)) true)]>
                  (Juke.loadedSamples s) ∧
            Juke.availableSampleIds s' = q ∧
            Juke.playingClips s' = Juke.playingClips s)).
Proof.
  split.
  - intros Hbad. unfold Juke.Load.
    destruct (file_exists file) eqn:Hex; simpl; [|by eexists].
    destruct (is_regular_file file) eqn:Hreg; simpl; [|by eexists].
    destruct (file_error file) eqn:Herr; simpl; [by eexists|].
    destruct (negb (channels file =? 1) && negb (channels file =? 2)) eqn:Hch;
      [by eexists|].
    destruct (negb (samplerate file =? 44100)) eqn:Hrate; [by eexists|].
    exfalso.
    destruct Hbad as [?|[?|[?|[[H1 H2]|Hr]]]]; try done.
    + apply andb_false_iff in Hch as [Hch|Hch];
        apply negb_false_iff, Z.eqb_eq in Hch; done.
    + by apply negb_false_iff, Z.eqb_eq in Hrate.
  - intros Hex Hreg Herr Hch Hrate.
    assert (Hchb : negb (channels file =? 1) && negb (channels file =? 2) = false).
    { destruct Hch as [-> | ->]; reflexivity. }
    unfold Juke.Load. rewrite Hex, Hreg, Herr, Hchb, Hrate. simpl.
    split.
    + intros Hq. unfold bind, gets. by rewrite Hq.
    + intros id q Hq Hlt.
      destruct (lookup_lt_is_Some_2 _ _ Hlt) as [slot Hslot].
      unfold bind, gets, modify, ret, Juke.sample_slot, bind, gets, lift.
      rewrite Hq. simpl. unfold Juke.AudioSample in *. rewrite Hslot. simpl.
      eexists. split; [reflexivity|]. simpl. by rewrite Hq.
Qed.

(** X23, at a fresh player and a one-channel file. *)
Lemma Juke_Load_checks_the_file_but_not_the_queue_witness :
  ∃ s', Juke.Load "loop1.wav" (Scenario.wav 1 [F32.one; F32.one]) Juke.Initialize
        = Some (1%nat, s') ∧
        Juke.loadedSamples s' !! 1%nat
          = Some (Some (Juke.Build_AudioSampleData [F32.one; F32.one] 2 true)).
Proof.
  destruct (Juke_Load_checks_the_file_but_not_the_queue Juke.Initialize
              "loop1.wav" (Scenario.wav 1 [F32.one; F32.one])) as [_ Hok].
  destruct (Hok eq_refl eq_refl eq_refl ltac:(by left) eq_refl) as [_ Hload].
  destruct (Hload 1%nat (seq 2 2046) eq_refl ltac:(vm_compute; lia))
    as (s' & HLoad & Hsamples & _).
  exists s'. split; [exact HLoad|].
  rewrite Hsamples. vm_compute. reflexivity.
Defined.

(** * Playing a stereo sample to its end *)

Section StereoPlayback.
Variable pool : list SampleData.t.
Variable p : nat.
Variable sd : SampleData.t.
Variable buf : list float.
Variables vol pn : float.
Hypothesis Hpool : pool !! p = Some sd.
Hypothesis Hstereo : SampleData.mono sd = false.
Hypothesis Hdata : SampleData.data sd = Some buf.
Hypothesis Hlength : SampleData.length sd = Z.of_nat (List.length buf).
Hypothesis Hmax : Z.of_nat (List.length buf) ≤ UINT_MAX.

Lemma stereo_NextStereo (c : ClipData.t) :
  ClipData.sample c = Some p →
  ClipData.NextStereo pool c
  = '(l, c1) ← ClipData.Next pool c;
    '(r, c2) ← ClipData.Next pool c1;
    Some ((F32.mul l (F32.sub F32.one (ClipData.pan c)),
           F32.mul r (F32.add F32.one (ClipData.pan c))), c2).
Proof.
  intros Hc. unfold ClipData.NextStereo. rewrite Hc, Hpool. simpl.
  rewrite Hstereo.
  destruct (ClipData.Next pool c) as [[l c1]|]; simpl; [|done].
  by destruct (ClipData.Next pool c1) as [[r c2]|].
Qed.

Lemma stereo_step_inside (i : nat) (l r : float) :
  buf !! i = Some l → buf !! S i = Some r →
  (S (S i) < List.length buf)%nat →
  ClipData.NextStereo pool
    (ClipData.Build (Some p) Playing (Z.of_nat i) vol pn 0)
  = Some (stereo_frame vol pn l r,
          ClipData.Build (Some p) Playing (Z.of_nat (S (S i))) vol pn 0).
Proof.
  intros Hl Hr Hlt. rewrite stereo_NextStereo by done.
  rewrite (Next_playing pool p sd buf l) by (simpl; rewrite ?Nat2Z.id; done).
  rewrite (IncrementSampleIndex_inside pool p sd) by (done || lia). simpl.
  replace (Z.of_nat i + 1) with (Z.of_nat (S i)) by lia.
  rewrite (Next_playing pool p sd buf r) by (simpl; rewrite ?Nat2Z.id; done).
  rewrite (IncrementSampleIndex_inside pool p sd) by (done || lia). simpl.
  by replace (Z.of_nat (S i) + 1) with (Z.of_nat (S (S i))) by lia.
Qed.

Lemma stereo_step_last (i : nat) (l r : float) :
  buf !! i = Some l → buf !! S i = Some r →
  S (S i) = List.length buf →
  ClipData.NextStereo pool
    (ClipData.Build (Some p) Playing (Z.of_nat i) vol pn 0)
  = Some (stereo_frame vol pn l r,
          ClipData.Build (Some p) Complete (Z.of_nat (List.length buf)) vol pn 0).
Proof.
  intros Hl Hr Hlast. rewrite stereo_NextStereo by done.
  rewrite (Next_playing pool p sd buf l) by (simpl; rewrite ?Nat2Z.id; done).
  rewrite (IncrementSampleIndex_inside pool p sd) by (done || lia). simpl.
  replace (Z.of_nat i + 1) with (Z.of_nat (S i)) by lia.
  rewrite (Next_playing pool p sd buf r) by (simpl; rewrite ?Nat2Z.id; done).
  rewrite (IncrementSampleIndex_complete pool p sd) by (done || lia). simpl.
  by replace (Z.of_nat (S i) + 1) with (Z.of_nat (List.length buf)) by lia.
Qed.

Lemma stereo_run_inside (m i : nat) :
  (i + (m + m) < List.length buf)%nat →
  play_frames pool m
    (ClipData.Build (Some p) Playing (Z.of_nat i) vol pn 0)
  = Some (stereo_frames vol pn (take (m + m) (drop i buf)),
          ClipData.Build (Some p) Playing (Z.of_nat (i + (m + m))) vol pn 0).
Proof.
  revert i. induction m as [|m IH]; intros i Hlt.
  - simpl. by rewrite Nat.add_0_r.
  - destruct (lookup_lt_is_Some_2 buf i) as [l Hl]; [lia|].
    destruct (lookup_lt_is_Some_2 buf (S i)) as [r Hr]; [lia|].
    simpl play_frames.
    rewrite (stereo_step_inside i l r) by (done || lia). simpl.
    rewrite IH by lia. simpl.
    rewrite (drop_S buf l i Hl), (drop_S buf r (S i) Hr).
    replace (m + S m)%nat with (S (m + m)) by lia. simpl.
    by replace (i + S (S (m + m)))%nat with (S (S (i + (m + m)))) by lia.
Qed.

Lemma stereo_complete_yields (n : nat) (i : Z) :
  play_frames pool n (ClipData.Build (Some p) Complete i vol pn 0)
  = Some (replicate n (F32.mul F32.zero (F32.sub F32.one pn),
                       F32.mul F32.zero (F32.add F32.one pn)),
          ClipData.Build (Some p) Complete i vol pn 0).
Proof.
  induction n as [|n IH]; [done|].
  simpl play_frames. rewrite stereo_NextStereo by done.
  rewrite !Next_not_playing by done. simpl. by rewrite IH.
Qed.

End StereoPlayback.

(** X24. A clip bound to a stereo sample of N > 0 frames (2N interleaved
    floats) that plays once from cursor 0 is [Playing], with its cursor at
    2m, after every number m < N of frames, and [Complete] after exactly N
    frames, having yielded each frame as
    ((left × volume) × (1 − pan), (right × volume) × (1 + pan)).  From
    then on each frame it yields is (0.0 × (1 − pan), 0.0 × (1 + pan)). *)
Theorem stereo_clip_completes_after_N_frames (pool : list SampleData.t)
    (p : nat) (sd : SampleData.t) (buf : list float) (c : ClipData.t)
    (N : nat) :
  pool !! p = Some sd →
  SampleData.mono sd = false →
  SampleData.data sd = Some buf →
  SampleData.length sd = Z.of_nat (List.length buf) →
  List.length buf = (2 * N)%nat → (0 < N)%nat →
  Z.of_nat (List.length buf) ≤ UINT_MAX →
  ClipData.sample c = Some p →
  ClipData.state c = Playing →
  ClipData.sampleIndex c = 0 →
  ClipData.loopCount c = 0 →
  (∀ m : nat, (m < N)%nat →
     ∃ v c', play_frames pool m c = Some (v, c') ∧
             ClipData.state c' = Playing ∧
             ClipData.sampleIndex c' = Z.of_nat (2 * m)) ∧
  ∃ c', play_frames pool N c
        = Some (stereo_frames (ClipData.volume c) (ClipData.pan c) buf, c') ∧
        ClipData.state c' = Complete ∧
        ∀ n : nat,
          play_frames pool n c'
          = Some (replicate n
                    (F32.mul F32.zero (F32.sub F32.one (ClipData.pan c)),
                     F32.mul F32.zero (F32.add F32.one (ClipData.pan c))), c').
Proof.
  intros Hpool Hstereo Hdata Hlength Heven Hpos Hmax Hc Hst Hi Hl.
  destruct c as [smp st i vol pn l]. simpl in *. subst smp st i l.
  split.
  - intros m Hm.
    pose proof (stereo_run_inside pool p sd buf vol pn
                  Hpool Hstereo Hdata Hlength Hmax m 0 ltac:(lia)) as Hrun.
    change (Z.of_nat 0) with 0 in Hrun. rewrite Hrun.
    eexists _, _. split; [done|]. split; [done|]. simpl. f_equal. lia.
  - exists (ClipData.Build (Some p) Complete (Z.of_nat (List.length buf)) vol pn 0).
    split; [|split; [done|]].
    + destruct N as [|n]; [lia|].
      destruct (lookup_lt_is_Some_2 buf (n + n)) as [l Hl]; [lia|].
      destruct (lookup_lt_is_Some_2 buf (S (n + n))) as [r Hr]; [lia|].
      replace (S n) with (n + 1)%nat at 1 by lia. rewrite play_frames_app.
      pose proof (stereo_run_inside pool p sd buf vol pn
                    Hpool Hstereo Hdata Hlength Hmax n 0 ltac:(lia)) as Hrun.
      change (Z.of_nat 0) with 0 in Hrun. rewrite Hrun.
      rewrite drop_0, Nat.add_0_l. simpl.
      rewrite (stereo_step_last pool p sd buf vol pn
                 Hpool Hstereo Hdata Hlength Hmax (n + n) l r Hl Hr ltac:(lia)).
      simpl. do 2 f_equal.
      assert (Hbuf : buf = take (n + n) buf ++ [l; r]).
      { rewrite <- (take_drop (n + n) buf) at 1. f_equal.
        rewrite (drop_S buf l (n + n) Hl), (drop_S buf r (S (n + n)) Hr).
        by rewrite drop_ge by lia. }
      rewrite Hbuf at 2.
      assert (Happ : ∀ (k : nat) (xs ys : list float),
                List.length xs = (k + k)%nat →
                stereo_frames vol pn (xs ++ ys)
                = stereo_frames vol pn xs ++ stereo_frames vol pn ys).
      { induction k as [|k IHk]; intros xs ys Hlen.
        - by destruct xs.
        - destruct xs as [|x [|y xs]]; simpl in Hlen; try lia.
          simpl. f_equal. apply IHk. lia. }
      by rewrite (Happ n) by (rewrite length_take; lia).
    + intros k.
      apply (stereo_complete_yields pool p sd vol pn Hpool Hstereo).
Qed.

(** X24, at a concrete sample of two stereo frames. *)
Lemma stereo_clip_completes_after_N_frames_witness :
  let buf := [F32.one; Scenario.two; F32.one; Scenario.two] in
  let pool := [SampleData.init; SampleData.Build (Some buf) 4 false] in
  let c := ClipData.Build (Some 1%nat) Playing 0 F32.one F32.zero 0 in
  (∃ v c', play_frames pool 1 c = Some (v, c') ∧ ClipData.state c' = Playing) ∧
  ∃ c', play_frames pool 2 c
        = Some (stereo_frames F32.one F32.zero buf, c') ∧
        ClipData.state c' = Complete.
Proof.
  intros buf pool c.
  destruct (stereo_clip_completes_after_N_frames
              pool 1%nat (SampleData.Build (Some buf) 4 false) buf c 2%nat
              eq_refl eq_refl eq_refl eq_refl eq_refl
              ltac:(lia) ltac:(vm_compute; discriminate)
              eq_refl eq_refl eq_refl eq_refl)
    as [Hbefore (c' & Hrun & Hst & _)].
  split.
  - destruct (Hbefore 1%nat ltac:(lia)) as (v & c1 & H1 & H2 & _).
    by exists v, c1.
  - by exists c'.
Defined.
